(** * The daily planner of [app.js]: tasks, slot buckets and pill tokens

    A shallow embedding of the state and of the event handlers of the
    [App] component of [src/app.js] (with the guards of its
    [UnscheduledTasks] child and the drop handlers of [UnifiedSchedule]),
    and the properties of the slot-assignment core stated in the design
    specification.

    Conventions of the embedding.
    - React state ([useState]) is a field of an explicit state record; a
      handler is a function from the state to its completion and the next
      state.  Events are serialized (one handler runs to its end before the
      next one starts), as the specification's concurrency model says, so a
      handler reads the state of the latest render.
    - The Dexie table [db.tasks] is an external collaborator: the model
      keeps its key generator and the requests the application sends it.
    - JavaScript strings are sequences of UTF-16 code units. *)

From Stdlib Require Import List NArith ZArith String Ascii Bool Lia.
From Stdlib Require Import DecimalString DecimalN.
Import ListNotations.

(** ** JavaScript values, strings and strict equality *)

Module JS.

(** A string is its sequence of UTF-16 code units. *)
Definition jsstring := list N.

(** The code units of an ASCII literal of the source. *)
Definition jstr (s : string) : jsstring :=
  map N_of_ascii (list_ascii_of_string s).

Fixpoint jsstring_eqb (s t : jsstring) : bool :=
  match s, t with
  | [], [] => true
  | c :: s', d :: t' => N.eqb c d && jsstring_eqb s' t'
  | _, _ => false
  end.

(** The values that reach the handlers: what [getAttribute] returns is a
    string or [null]; ids are integral numbers.  Numbers that are not
    integers are not represented (a number of any value is of another type
    than a string, which is all the handlers ask of one). *)
Inductive jsval :=
| JUndefined
| JNull
| JBool (b : bool)
| JNum (n : Z)
| JStr (s : jsstring).

(** [a === b]: same type and same value, no conversion. *)
Definition strict_eq (a b : jsval) : bool :=
  match a, b with
  | JUndefined, JUndefined => true
  | JNull, JNull => true
  | JBool x, JBool y => Bool.eqb x y
  | JNum x, JNum y => Z.eqb x y
  | JStr s, JStr t => jsstring_eqb s t
  | _, _ => false
  end.

(** [Number.prototype.toString()] on a non-negative integer (a Dexie
    auto-incremented key, an array index): its decimal digits. *)
Definition Number_toString (n : N) : jsstring :=
  jstr (NilEmpty.string_of_uint (N.to_uint n)).

(** Reading a string of decimal digits back, to say what "decimal" means
    for [Number_toString]. *)
Definition parse_decimal (s : jsstring) : option N :=
  option_map N.of_uint
    (NilEmpty.uint_of_string (string_of_list_ascii (map ascii_of_N s))).

(** WhiteSpace and LineTerminator code units of ECMAScript, the ones
    [String.prototype.trim] strips. *)
Definition isWhiteSpace (c : N) : bool :=
  (N.leb 9 c && N.leb c 13)            (* TAB, LF, VT, FF, CR *)
  || N.eqb c 32                        (* SPACE *)
  || N.eqb c 160                       (* NO-BREAK SPACE *)
  || N.eqb c 5760                      (* U+1680 *)
  || (N.leb 8192 c && N.leb c 8202)    (* U+2000 .. U+200A *)
  || N.eqb c 8232 || N.eqb c 8233      (* LINE / PARAGRAPH SEPARATOR *)
  || N.eqb c 8239 || N.eqb c 8287      (* U+202F, U+205F *)
  || N.eqb c 12288                     (* U+3000 *)
  || N.eqb c 65279.                    (* U+FEFF *)

Fixpoint trimStart (s : jsstring) : jsstring :=
  match s with
  | [] => []
  | c :: r => if isWhiteSpace c then trimStart r else s
  end.

Definition trimEnd (s : jsstring) : jsstring := rev (trimStart (rev s)).

(** [s.trim()] *)
Definition trim (s : jsstring) : jsstring := trimEnd (trimStart s).

(** How a call completes.  The errors are the taxonomy of the
    specification; no handler of [app.js] has a [throw]. *)
Inductive error := InvalidInput | UnknownTask | UnknownSlot | InvalidSlot.

Inductive completion :=
| Normal (v : jsval)
| Throw (e : error).

End JS.
Import JS.

(** ** Data model *)

(** A record of the [tasks] table, as [addTask] builds it:
    [{ id, title, date, status, slot }]. *)
Record Task := mkTask {
  task_id : N;
  task_title : jsstring;
  task_date : jsstring;
  task_status : jsstring;
  task_slot : jsval
}.

(** A pill token, as [App] builds it: [{ id: index, time, taken }]. *)
Record Pill := mkPill {
  pill_id : N;
  pill_time : jsstring;
  pill_taken : bool
}.

(** The persistent store (the Dexie table [tasks: "++id, ..."]), seen from
    the application: the key generator of the auto-incremented primary key
    and the requests received so far, oldest first. *)
Inductive request :=
| DbAdd (title date status : jsstring) (slot : jsval)
| DbPut (record : Task).

Record Store := mkStore {
  keygen : N;
  requests : list request
}.

(** [db.tasks.add(record)]: the record has no [id]; the generator supplies
    it and moves on. *)
Definition db_add (title date status : jsstring) (slot : jsval) (s : Store)
  : N * Store :=
  (keygen s,
   {| keygen := N.succ (keygen s);
      requests := requests s ++ [DbAdd title date status slot] |}).

(** [db.tasks.put(record)]: upsert under the record's own key; a key at or
    above the generator's number pushes the generator past it. *)
Definition db_put (record : Task) (s : Store) : Store :=
  {| keygen := N.max (keygen s) (N.succ (task_id record));
     requests := requests s ++ [DbPut record] |}.

(** The state of [App]: its two [useState] cells and the store. *)
Record AppState := mkApp {
  tasks : list Task;
  pills : list Pill;
  db : Store
}.

(** ** SlotCalendar *)

Definition timeSlots : list jsstring :=
  map jstr
    ["08:00"; "09:00"; "10:00"; "11:00"; "12:00"; "13:00"; "14:00"; "15:00";
     "16:00"; "17:00"; "18:00"; "19:00"; "20:00"; "21:00"; "22:00"; "23:00";
     "00:00"]%string.

(** [l.map((x, index) => f(x, index))], counting from [i]. *)
Fixpoint map_index {A B : Type} (f : A -> N -> B) (i : N) (l : list A)
  : list B :=
  match l with
  | [] => []
  | a :: r => f a i :: map_index f (N.succ i) r
  end.

(** The initial value of the [pills] cell. *)
Definition initial_pills : list Pill :=
  map_index
    (fun time index =>
       {| pill_id := index; pill_time := time; pill_taken := false |})
    0%N timeSlots.

(** [App] before [loadTasks] resolves, over a store whose generator is at
    [g]. *)
Definition initial (g : N) : AppState :=
  {| tasks := [];
     pills := initial_pills;
     db := {| keygen := g; requests := [] |} |}.

(** ** Handlers of [App] *)

(** [task.id.toString() === taskId] and [p.id.toString() === pillIndex] *)
Definition id_matches (id : N) (arg : jsval) : bool :=
  strict_eq (JStr (Number_toString id)) arg.

(** [{ ...task, slot }] *)
Definition set_slot (task : Task) (slot : jsval) : Task :=
  {| task_id := task_id task;
     task_title := task_title task;
     task_date := task_date task;
     task_status := task_status task;
     task_slot := slot |}.

(** [{ ...p, taken }] *)
Definition set_taken (p : Pill) (taken : bool) : Pill :=
  {| pill_id := pill_id p; pill_time := pill_time p; pill_taken := taken |}.

(** [loadTasks], when [db.tasks.toArray()] resolves with [allTasks]. *)
Definition loadTasks (allTasks : list Task) (st : AppState)
  : completion * AppState :=
  (Normal JUndefined,
   {| tasks := allTasks; pills := pills st; db := db st |}).

(** [addTask(title, date)] (create).  The [await] of the key and the
    [setTasks] that follows it are one step, and [tasks] (the array of the
    render the handler was made in) is the array of the current state. *)
Definition addTask (title date : jsstring) (st : AppState)
  : completion * AppState :=
  let (id, db') := db_add title date (jstr "pending") JNull (db st) in
  (Normal JUndefined,
   {| tasks := tasks st ++
               [ {| task_id := id; task_title := title; task_date := date;
                    task_status := jstr "pending"; task_slot := JNull |} ];
      pills := pills st;
      db := db' |}).

(** The callback of [tasks.map] in [updateTaskSlot]:
    [task.id.toString() === taskId ? { ...task, slot } : task]. *)
Definition relocate (taskId slot : jsval) (task : Task) : Task :=
  if id_matches (task_id task) taskId then set_slot task slot else task.

(** [updateTaskSlot(taskId, slot)] (moveToSlot). *)
Definition updateTaskSlot (taskId slot : jsval) (st : AppState)
  : completion * AppState :=
  let updated := map (relocate taskId slot) (tasks st) in
  let taskToUpdate :=
    find (fun t => id_matches (task_id t) taskId) updated in
  (Normal JUndefined,
   {| tasks := updated;
      pills := pills st;
      db := match taskToUpdate with
            | Some t => db_put t (db st)
            | None => db st
            end |}).

(** The callback of [prev.map] in [updatePillStatus]:
    [p.id.toString() === pillIndex ? { ...p, taken } : p]. *)
Definition mark (pillIndex : jsval) (taken : bool) (p : Pill) : Pill :=
  if id_matches (pill_id p) pillIndex then set_taken p taken else p.

(** [updatePillStatus(pillIndex, taken)] (setTaken). *)
Definition updatePillStatus (pillIndex : jsval) (taken : bool)
  (st : AppState) : completion * AppState :=
  (Normal JUndefined,
   {| tasks := tasks st;
      pills := map (mark pillIndex taken) (pills st);
      db := db st |}).

(** ** Queries of the render *)

(** [tasks.filter(t => t.slot === null)], the prop of [UnscheduledTasks]. *)
Definition unscheduled (ts : list Task) : list Task :=
  filter (fun t => strict_eq (task_slot t) JNull) ts.

(** [tasks.filter(t => t.slot !== null)], the prop of [UnifiedSchedule]. *)
Definition scheduled (ts : list Task) : list Task :=
  filter (fun t => negb (strict_eq (task_slot t) JNull)) ts.

(** [tasks.filter((t) => t.slot === slot)] inside [UnifiedSchedule]. *)
Definition slotTasks (slot : jsstring) (ts : list Task) : list Task :=
  filter (fun t => strict_eq (task_slot t) (JStr slot)) ts.

(** byBucket(label): the tasks rendered in the task zone of [label]. *)
Definition byBucket (label : jsstring) (st : AppState) : list Task :=
  slotTasks label (scheduled (tasks st)).

(** [pills.find((p) => p.id === index)] (get). *)
Definition pill_get (index : N) (ps : list Pill) : option Pill :=
  find (fun p => N.eqb (pill_id p) index) ps.

(** The membership sets of the specification: the unscheduled pool and one
    bucket per label. *)
Inductive bucket :=
| Unscheduled
| Slot (label : jsstring).

Definition bucket_key (b : bucket) : jsval :=
  match b with
  | Unscheduled => JNull
  | Slot label => JStr label
  end.

Definition members (b : bucket) (st : AppState) : list Task :=
  match b with
  | Unscheduled => unscheduled (tasks st)
  | Slot label => byBucket label st
  end.

(** ** The title editor of [UnscheduledTasks] *)

Record Editor := mkEditor {
  isEditing : bool;
  newTaskText : jsstring
}.

Definition handleAddTask (ui : Editor) : Editor :=
  {| isEditing := true; newTaskText := newTaskText ui |}.

Definition onChange (value : jsstring) (ui : Editor) : Editor :=
  {| isEditing := isEditing ui; newTaskText := value |}.

(** [handleKeyDown(e)], with [key] for [e.key] and [now] for
    [new Date().toISOString()]. *)
Definition handleKeyDown (key now : jsstring) (ui : Editor) (st : AppState)
  : completion * Editor * AppState :=
  if jsstring_eqb key (jstr "Enter")
     && negb (jsstring_eqb (trim (newTaskText ui)) [])
  then
    (Normal JUndefined,
     {| isEditing := false; newTaskText := [] |},
     snd (addTask (newTaskText ui) now st))
  else (Normal JUndefined, ui, st).

(** The [onBlur] handler of the input. *)
Definition onBlur (now : jsstring) (ui : Editor) (st : AppState)
  : completion * Editor * AppState :=
  (Normal JUndefined,
   {| isEditing := false; newTaskText := [] |},
   if negb (jsstring_eqb (trim (newTaskText ui)) [])
   then snd (addTask (newTaskText ui) now st)
   else st).

(** ** The drop zones of [UnifiedSchedule] *)

(** [ondrop] of [#task-zone-index], whose closure holds [slot]. *)
Definition task_ondrop (slot : jsstring) (taskId : jsval) (st : AppState)
  : completion * AppState :=
  updateTaskSlot taskId (JStr slot) st.

(** [ondrop] of [#pill-left-index] and of [#pill-right-index]. *)
Definition pill_left_ondrop (pillIndex : jsval) (st : AppState)
  : completion * AppState :=
  updatePillStatus pillIndex false st.

Definition pill_right_ondrop (pillIndex : jsval) (st : AppState)
  : completion * AppState :=
  updatePillStatus pillIndex true st.

(** One task zone per slot of the calendar ([timeSlots.forEach]). *)
Definition task_zones : list (jsval -> AppState -> completion * AppState) :=
  map task_ondrop timeSlots.

(** ** Sessions *)

Inductive event :=
| EvLoad (allTasks : list Task)
| EvAdd (title date : jsstring)
| EvMove (taskId slot : jsval)
| EvPill (pillIndex : jsval) (taken : bool).

Definition step (e : event) (st : AppState) : completion * AppState :=
  match e with
  | EvLoad allTasks => loadTasks allTasks st
  | EvAdd title date => addTask title date st
  | EvMove taskId slot => updateTaskSlot taskId slot st
  | EvPill pillIndex taken => updatePillStatus pillIndex taken st
  end.

Fixpoint run (es : list event) (st : AppState) : AppState :=
  match es with
  | [] => st
  | e :: es' => run es' (snd (step e st))
  end.

(** Keys are unique and were all handed out by the generator. *)
Definition tasks_wf (st : AppState) : Prop :=
  NoDup (map task_id (tasks st)) /\
  Forall (fun t => (task_id t < keygen (db st))%N) (tasks st).

(** The part of a token that ties it to its slot: the index and the
    label. *)
Definition token_slot (p : Pill) : N * jsstring := (pill_id p, pill_time p).

(** The slots of the calendar with their indices, in order. *)
Definition calendar_slots : list (N * jsstring) :=
  combine (map N.of_nat (seq 0 (List.length timeSlots))) timeSlots.

(** What a session needs of the store: the rows [toArray] resolves with
    have distinct keys, all handed out by the generator. *)
Fixpoint loads_ok (es : list event) (st : AppState) : Prop :=
  match es with
  | [] => True
  | e :: es' =>
      match e with
      | EvLoad allTasks =>
          NoDup (map task_id allTasks) /\
          Forall (fun t => (task_id t < keygen (db st))%N) allTasks
      | _ => True
      end /\ loads_ok es' (snd (step e st))
  end.

(** ** A sample session

    The scenario of the specification: two tasks are created on an empty
    store, then "Buy milk" is dropped on 09:00 and the pill of slot 3 on its
    taken zone. *)

Definition now0 : jsstring := jstr "2025-03-01T07:30:00.000Z".

Definition two_tasks : AppState :=
  run [EvAdd (jstr "Buy milk") now0; EvAdd (jstr "Call dentist") now0]
      (initial 1).

Definition milk : Task :=
  {| task_id := 1; task_title := jstr "Buy milk"; task_date := now0;
     task_status := jstr "pending"; task_slot := JNull |}.

Definition dentist : Task :=
  {| task_id := 2; task_title := jstr "Call dentist"; task_date := now0;
     task_status := jstr "pending"; task_slot := JNull |}.

Definition milk_at_nine : AppState :=
  snd (task_ondrop (jstr "09:00") (JStr (jstr "1")) two_tasks).

Definition pill3_taken : AppState :=
  snd (pill_right_ondrop (JStr (jstr "3")) two_tasks).

(** setTaken(3, true) then setTaken(3, false), from [pill3_taken]. *)
Definition pill3_round_trip : AppState :=
  snd (updatePillStatus (JStr (jstr "3")) false
         (snd (updatePillStatus (JStr (jstr "3")) true pill3_taken))).

(** ** The rendered page and its gestures *)

(** [data-task-id={task.id}] and [data-pill-index={pill.id}]: the attribute
    a draggable element carries, which [getAttribute] gives back as a
    string. *)
Definition data_task_id (task : Task) : jsval :=
  JStr (Number_toString (task_id task)).

Definition data_pill_index (pill : Pill) : jsval :=
  JStr (Number_toString (pill_id pill)).

(** [pill && !pill.taken] and [pill && pill.taken], with
    [pill = pills.find((p) => p.id === index)]: whether the row of [index]
    draws the pill in its left (not taken) zone, in its right (taken) zone. *)
Definition pill_left_shows (index : N) (ps : list Pill) : bool :=
  match pill_get index ps with
  | Some pill => negb (pill_taken pill)
  | None => false
  end.

Definition pill_right_shows (index : N) (ps : list Pill) : bool :=
  match pill_get index ps with
  | Some pill => pill_taken pill
  | None => false
  end.

(** What of a task no handler writes after [addTask]: everything but the
    slot. *)
Definition task_core (t : Task) : N * jsstring * jsstring * jsstring :=
  (task_id t, task_title t, task_date t, task_status t).

(** The events that are not the resolution of a load. *)
Definition is_load (e : event) : bool :=
  match e with
  | EvLoad _ => true
  | _ => false
  end.

(** The events of the pill track. *)
Definition is_pill (e : event) : bool :=
  match e with
  | EvPill _ _ => true
  | _ => false
  end.

(** One left and one right pill zone per slot ([timeSlots.forEach]); their
    handlers do not use the slot. *)
Definition pill_left_zones : list (jsval -> AppState -> completion * AppState) :=
  map (fun _ => pill_left_ondrop) timeSlots.

Definition pill_right_zones : list (jsval -> AppState -> completion * AppState) :=
  map (fun _ => pill_right_ondrop) timeSlots.

(** How many task elements the page draws: the list of [UnscheduledTasks]
    and, for each row, the tasks of its zone. *)
Definition rendered_count (ts : list Task) : nat :=
  List.length (unscheduled ts) +
  list_sum (map (fun slot => List.length (slotTasks slot (scheduled ts)))
                timeSlots).

(** A slot value the page has a place for: [null] or a label of the
    calendar. *)
Definition slot_ok (v : jsval) : bool :=
  strict_eq v JNull || existsb (fun slot => strict_eq v (JStr slot)) timeSlots.

Definition slots_valid (ts : list Task) : bool :=
  forallb (fun t => slot_ok (task_slot t)) ts.

(** What the user and the store can do to the page.  A gesture names the
    element it lands on; the element has to be drawn for a handler to run
    (the input only while [isEditing], the button otherwise, a zone only
    for an index of the calendar). *)
Inductive gesture :=
| ClickAddTask
| TypeText (value : jsstring)
| KeyDown (key now : jsstring)
| Blur (now : jsstring)
| TasksLoaded (allTasks : list Task)
| DropOnTaskZone (index : nat) (taskId : jsval)
| DropOnPillLeft (index : nat) (pillIndex : jsval)
| DropOnPillRight (index : nat) (pillIndex : jsval).

Definition drop_on (zones : list (jsval -> AppState -> completion * AppState))
  (index : nat) (arg : jsval) (st : AppState) : AppState :=
  match nth_error zones index with
  | Some ondrop => snd (ondrop arg st)
  | None => st
  end.

Definition perform (e : gesture) (page : Editor * AppState)
  : Editor * AppState :=
  let (ui, st) := page in
  match e with
  | ClickAddTask => if isEditing ui then page else (handleAddTask ui, st)
  | TypeText value => if isEditing ui then (onChange value ui, st) else page
  | KeyDown key now =>
      if isEditing ui
      then let r := handleKeyDown key now ui st in (snd (fst r), snd r)
      else page
  | Blur now =>
      if isEditing ui
      then let r := onBlur now ui st in (snd (fst r), snd r)
      else page
  | TasksLoaded allTasks => (ui, snd (loadTasks allTasks st))
  | DropOnTaskZone index taskId => (ui, drop_on task_zones index taskId st)
  | DropOnPillLeft index pillIndex =>
      (ui, drop_on pill_left_zones index pillIndex st)
  | DropOnPillRight index pillIndex =>
      (ui, drop_on pill_right_zones index pillIndex st)
  end.

Fixpoint session (es : list gesture) (page : Editor * AppState)
  : Editor * AppState :=
  match es with
  | [] => page
  | e :: es' => session es' (perform e page)
  end.

(** The page as [App] first renders it. *)
Definition first_page (g : N) : Editor * AppState :=
  ({| isEditing := false; newTaskText := [] |}, initial g).

(** The rows the store resolves a load with all have a slot of the page. *)
Definition loads_valid (es : list gesture) : Prop :=
  Forall (fun e => match e with
                   | TasksLoaded allTasks => slots_valid allTasks = true
                   | _ => True
                   end) es.

(** ** [addTask] as it runs: the call, the await, the resolution

    [addTask] sends the add and awaits the key; when the promise resolves it
    calls [setTasks([...tasks, new])] with the [tasks] array its closure
    holds, the one of the render the handler was made in.  Other handlers
    can run during the await.  The store serves requests in the order they
    were sent, so adds resolve in the order of their calls.  [addTask]
    above is the call followed at once by the resolution. *)

(** An add that awaits its key: the array of its closure and the task it
    will append. *)
Record Pending := mkPending {
  closure_tasks : list Task;
  created : Task
}.

Record Async := mkAsync {
  app : AppState;
  inflight : list Pending
}.

Definition idle (st : AppState) : Async := {| app := st; inflight := [] |}.

(** [addTask(title, date)] up to its [await]. *)
Definition addTask_call (title date : jsstring) (a : Async) : Async :=
  let (id, db') := db_add title date (jstr "pending") JNull (db (app a)) in
  {| app := {| tasks := tasks (app a); pills := pills (app a); db := db' |};
     inflight :=
       inflight a ++
       [ {| closure_tasks := tasks (app a);
            created := {| task_id := id; task_title := title;
                          task_date := date; task_status := jstr "pending";
                          task_slot := JNull |} |} ] |}.

(** The oldest awaited add resolves: [setTasks([...tasks, new])]. *)
Definition addTask_resume (a : Async) : Async :=
  match inflight a with
  | [] => a
  | p :: rest =>
      {| app := {| tasks := closure_tasks p ++ [created p];
                   pills := pills (app a);
                   db := db (app a) |};
         inflight := rest |}
  end.

Inductive async_event :=
| ACall (title date : jsstring)
| AResume
| ALoad (allTasks : list Task)
| AMove (taskId slot : jsval)
| APill (pillIndex : jsval) (taken : bool).

Definition on_app (f : AppState -> completion * AppState) (a : Async)
  : Async :=
  {| app := snd (f (app a)); inflight := inflight a |}.

Definition astep (e : async_event) (a : Async) : Async :=
  match e with
  | ACall title date => addTask_call title date a
  | AResume => addTask_resume a
  | ALoad allTasks => on_app (loadTasks allTasks) a
  | AMove taskId slot => on_app (updateTaskSlot taskId slot) a
  | APill pillIndex taken => on_app (updatePillStatus pillIndex taken) a
  end.

Fixpoint arun (es : list async_event) (a : Async) : Async :=
  match es with
  | [] => a
  | e :: es' => arun es' (astep e a)
  end.

(** An event of a session in which nothing happens during an await. *)
Definition in_turn (e : event) : list async_event :=
  match e with
  | EvLoad allTasks => [ALoad allTasks]
  | EvAdd title date => [ACall title date; AResume]
  | EvMove taskId slot => [AMove taskId slot]
  | EvPill pillIndex taken => [APill pillIndex taken]
  end.

(** A session that starts on a store holding "Water plants" at 10:00 under
    key 4. *)
Definition plants : Task :=
  {| task_id := 4; task_title := jstr "Water plants"; task_date := now0;
     task_status := jstr "pending"; task_slot := JStr (jstr "10:00") |}.

Definition morning : list gesture :=
  [ TasksLoaded [plants];
    ClickAddTask; TypeText (jstr " Buy milk "); KeyDown (jstr "Enter") now0;
    DropOnTaskZone 1 (JStr (jstr "5"));
    DropOnPillRight 0 (JStr (jstr "3")) ].

(** ** Facts on strings and strict equality *)

Lemma jsstring_eqb_eq (s t : jsstring) : jsstring_eqb s t = true <-> s = t.
Proof.
  revert t; induction s as [|c s IH]; intros [|d t]; simpl;
    try (split; [discriminate | discriminate]); try tauto.
  rewrite andb_true_iff, N.eqb_eq, IH.
  split; [intros [-> ->]; reflexivity | intros H; injection H; auto].
Qed.

Lemma jsstring_eqb_refl (s : jsstring) : jsstring_eqb s s = true.
Proof. apply jsstring_eqb_eq; reflexivity. Qed.

Lemma jsstring_eqb_neq (s t : jsstring) : jsstring_eqb s t = false <-> s <> t.
Proof.
  rewrite <- jsstring_eqb_eq. destruct (jsstring_eqb s t); split; congruence.
Qed.

Lemma strict_eq_eq (a b : jsval) : strict_eq a b = true <-> a = b.
Proof.
  destruct a, b; simpl; try (split; [discriminate | discriminate]); try tauto.
  - rewrite Bool.eqb_true_iff. split; congruence.
  - rewrite Z.eqb_eq. split; congruence.
  - rewrite jsstring_eqb_eq. split; congruence.
Qed.

Lemma strict_eq_refl (a : jsval) : strict_eq a a = true.
Proof. apply strict_eq_eq; reflexivity. Qed.

Lemma strict_eq_neq (a b : jsval) : strict_eq a b = false <-> a <> b.
Proof.
  rewrite <- strict_eq_eq. destruct (strict_eq a b); split; congruence.
Qed.

Lemma strict_eq_sym (a b : jsval) : strict_eq a b = strict_eq b a.
Proof.
  destruct (strict_eq b a) eqn:E.
  - apply strict_eq_eq. symmetry. now apply strict_eq_eq.
  - apply strict_eq_neq. intros ->. apply strict_eq_neq in E. now apply E.
Qed.

Lemma jstr_inj (s t : string) : jstr s = jstr t -> s = t.
Proof.
  unfold jstr. revert t.
  induction s as [|a s IH]; intros [|b t]; simpl; try discriminate; auto.
  intros H. injection H as Hab Hst.
  f_equal; [| now apply IH].
  rewrite <- (ascii_N_embedding a), <- (ascii_N_embedding b). now rewrite Hab.
Qed.

(** Distinct numbers have distinct decimal strings. *)
Lemma Number_toString_inj (m n : N) :
  Number_toString m = Number_toString n -> m = n.
Proof.
  unfold Number_toString. intros H. apply jstr_inj in H.
  apply Unsigned.to_uint_inj.
  pose proof (NilEmpty.usu (N.to_uint m)) as Hm.
  pose proof (NilEmpty.usu (N.to_uint n)) as Hn.
  rewrite H in Hm. congruence.
Qed.

(** A string is trimmed to the empty string exactly when all its code units
    are white space. *)
Lemma trimStart_nil (s : jsstring) :
  trimStart s = [] <-> forallb isWhiteSpace s = true.
Proof.
  induction s as [|c s IH]; simpl; [tauto|].
  destruct (isWhiteSpace c); simpl; [exact IH|].
  split; discriminate.
Qed.

Lemma trim_nil (s : jsstring) :
  trim s = [] <-> forallb isWhiteSpace s = true.
Proof.
  unfold trim, trimEnd. split.
  - intros H. apply trimStart_nil.
    destruct (trimStart s) as [|c r] eqn:E; [reflexivity|].
    exfalso.
    assert (Hr : trimStart (rev (c :: r)) = []).
    { apply (f_equal (@rev N)) in H. now rewrite rev_involutive in H. }
    apply trimStart_nil in Hr. rewrite forallb_forall in Hr.
    assert (Hc : isWhiteSpace c = true) by (apply Hr, in_rev; rewrite rev_involutive; now left).
    simpl in E. clear -E Hc.
    induction s as [|d s IH]; simpl in E; [discriminate|].
    destruct (isWhiteSpace d) eqn:D; [now apply IH|].
    injection E as -> _. congruence.
  - intros H. apply trimStart_nil in H. now rewrite H.
Qed.

Example two_tasks_eq : tasks two_tasks = [milk; dentist].
Proof. reflexivity. Qed.

Example milk_at_nine_buckets :
  byBucket (jstr "09:00") milk_at_nine = [set_slot milk (JStr (jstr "09:00"))]
  /\ unscheduled (tasks milk_at_nine) = [dentist].
Proof. split; reflexivity. Qed.

Example Number_toString_16 : Number_toString 16 = jstr "16".
Proof. reflexivity. Qed.

(** ** How an argument matches a stored id *)

Lemma id_matches_iff (id : N) (arg : jsval) :
  id_matches id arg = true <-> arg = JStr (Number_toString id).
Proof.
  unfold id_matches. rewrite strict_eq_eq. split; congruence.
Qed.

Lemma id_matches_self (id : N) :
  id_matches id (JStr (Number_toString id)) = true.
Proof. now apply id_matches_iff. Qed.

Lemma id_matches_same (i j : N) (arg : jsval) :
  id_matches i arg = true -> id_matches j arg = true -> i = j.
Proof.
  rewrite !id_matches_iff. intros -> H.
  injection H as H. symmetry. now apply Number_toString_inj.
Qed.

Lemma id_matches_toString (i j : N) :
  id_matches i (JStr (Number_toString j)) = N.eqb i j.
Proof.
  destruct (N.eqb_spec i j) as [->|Hne].
  - apply id_matches_self.
  - destruct (id_matches i (JStr (Number_toString j))) eqn:E; [|reflexivity].
    exfalso. apply Hne. apply (id_matches_same _ _ _ E (id_matches_self j)).
Qed.

(** ** Lists: [map], [filter] and [find] with a callback that keeps keys *)

Section Lists.
Context {A K : Type} (key : A -> K).

Lemma NoDup_key_inj (l : list A) (a b : A) :
  NoDup (map key l) -> In a l -> In b l -> key a = key b -> a = b.
Proof.
  induction l as [|x l IH]; simpl; [tauto|].
  intros Hnd Ha Hb Hk. inversion Hnd as [|? ? Hx Hl]; subst.
  destruct Ha as [->|Ha], Hb as [->|Hb]; auto.
  - exfalso. apply Hx. rewrite Hk. now apply in_map.
  - exfalso. apply Hx. rewrite <- Hk. now apply in_map.
Qed.

Lemma map_key_preserved (g : A -> A) (l : list A) :
  (forall a, key (g a) = key a) -> map key (map g l) = map key l.
Proof.
  intros Hg. rewrite map_map. apply map_ext. exact Hg.
Qed.

Lemma filter_map_frame (f : A -> bool) (g : A -> A) (l : list A) :
  (forall a, In a l -> g a = a \/ (f (g a) = false /\ f a = false)) ->
  filter f (map g l) = filter f l.
Proof.
  induction l as [|x l IH]; simpl; intros H; [reflexivity|].
  rewrite IH by (intros a Ha; apply H; now right).
  destruct (H x (or_introl eq_refl)) as [->|[-> ->]]; reflexivity.
Qed.

Lemma find_map_commute (f : A -> bool) (g : A -> A) (l : list A) :
  (forall a, f (g a) = f a) ->
  find f (map g l) = option_map g (find f l).
Proof.
  intros Hg. induction l as [|x l IH]; simpl; [reflexivity|].
  rewrite Hg. destruct (f x); [reflexivity | exact IH].
Qed.

Lemma find_exists (f : A -> bool) (l : list A) :
  (exists a, In a l /\ f a = true) -> exists b, find f l = Some b.
Proof.
  intros [a [Ha Hf]]. destruct (find f l) as [b|] eqn:E; [now exists b|].
  rewrite (find_none f l E a Ha) in Hf. discriminate.
Qed.

Lemma map_fixed (g : A -> A) (l : list A) :
  (forall a, In a l -> g a = a) -> map g l = l.
Proof.
  intros H. rewrite <- (map_id l) at 2. apply map_ext_in. exact H.
Qed.
End Lists.

(** ** What the two callbacks keep *)

Lemma relocate_id (v s : jsval) (t : Task) :
  task_id (relocate v s t) = task_id t.
Proof. unfold relocate. now destruct (id_matches _ _). Qed.

Lemma relocate_hit (v s : jsval) (t : Task) :
  id_matches (task_id t) v = true -> relocate v s t = set_slot t s.
Proof. unfold relocate. now intros ->. Qed.

Lemma relocate_miss (v s : jsval) (t : Task) :
  id_matches (task_id t) v = false -> relocate v s t = t.
Proof. unfold relocate. now intros ->. Qed.

Lemma relocate_idem (v s : jsval) (t : Task) :
  relocate v s (relocate v s t) = relocate v s t.
Proof.
  destruct (id_matches (task_id t) v) eqn:E.
  - rewrite (relocate_hit v s t E). unfold relocate. simpl. now rewrite E.
  - rewrite (relocate_miss v s t E). now apply relocate_miss.
Qed.

Lemma mark_id (v : jsval) (b : bool) (p : Pill) :
  pill_id (mark v b p) = pill_id p.
Proof. unfold mark. now destruct (id_matches _ _). Qed.

Lemma mark_time (v : jsval) (b : bool) (p : Pill) :
  pill_time (mark v b p) = pill_time p.
Proof. unfold mark. now destruct (id_matches _ _). Qed.

Lemma set_taken_same (p : Pill) : set_taken p (pill_taken p) = p.
Proof. now destruct p. Qed.

Lemma set_slot_same (t : Task) : set_slot t (task_slot t) = t.
Proof. now destruct t. Qed.

(** ** The buckets as one filter on the slot field *)

Lemma byBucket_filter (label : jsstring) (st : AppState) :
  byBucket label st =
  filter (fun t => strict_eq (task_slot t) (JStr label)) (tasks st).
Proof.
  unfold byBucket, slotTasks, scheduled.
  induction (tasks st) as [|t l IH]; simpl; [reflexivity|].
  destruct (strict_eq (task_slot t) JNull) eqn:E; simpl.
  - apply strict_eq_eq in E. rewrite E. simpl. exact IH.
  - now rewrite IH.
Qed.

Lemma members_filter (b : bucket) (st : AppState) :
  members b st =
  filter (fun t => strict_eq (task_slot t) (bucket_key b)) (tasks st).
Proof. destruct b; [reflexivity | apply byBucket_filter]. Qed.

Lemma bucket_key_inj (b c : bucket) : bucket_key b = bucket_key c -> b = c.
Proof. destruct b, c; simpl; congruence. Qed.

Lemma in_members (b : bucket) (st : AppState) (t : Task) :
  In t (members b st) <-> In t (tasks st) /\ task_slot t = bucket_key b.
Proof.
  rewrite members_filter, filter_In, strict_eq_eq. tauto.
Qed.

(** ** Unique keys are an invariant of every session *)

Lemma wf_initial (g : N) : tasks_wf (initial g).
Proof. split; constructor. Qed.

Lemma wf_loadTasks (allTasks : list Task) (st : AppState) :
  NoDup (map task_id allTasks) ->
  Forall (fun t => (task_id t < keygen (db st))%N) allTasks ->
  tasks_wf (snd (loadTasks allTasks st)).
Proof. intros Hnd Hlt. split; assumption. Qed.

Lemma wf_addTask (title date : jsstring) (st : AppState) :
  tasks_wf st -> tasks_wf (snd (addTask title date st)).
Proof.
  intros [Hnd Hlt]. unfold tasks_wf, addTask. simpl. split.
  - rewrite map_app. simpl. apply NoDup_app; [exact Hnd | |].
    + constructor; [intros [] | constructor].
    + intros a Ha [<-|[]]. apply in_map_iff in Ha.
      destruct Ha as [t [Ht Hin]]. rewrite Forall_forall in Hlt.
      specialize (Hlt t Hin). simpl in Hlt. lia.
  - apply Forall_app. split.
    + eapply Forall_impl; [|exact Hlt]. simpl. intros; lia.
    + constructor; [simpl; lia | constructor].
Qed.

Lemma wf_updateTaskSlot (taskId slot : jsval) (st : AppState) :
  tasks_wf st -> tasks_wf (snd (updateTaskSlot taskId slot st)).
Proof.
  intros [Hnd Hlt]. unfold tasks_wf, updateTaskSlot. simpl. split.
  - rewrite (map_key_preserved task_id); [exact Hnd|].
    intros a. apply relocate_id.
  - rewrite Forall_forall in *. intros t' Hin.
    apply in_map_iff in Hin. destruct Hin as [t [<- Hin]].
    rewrite relocate_id. specialize (Hlt t Hin).
    destruct (find _ _); simpl; lia.
Qed.

Lemma wf_updatePillStatus (pillIndex : jsval) (taken : bool) (st : AppState) :
  tasks_wf st -> tasks_wf (snd (updatePillStatus pillIndex taken st)).
Proof. intros H. exact H. Qed.

Lemma wf_step (e : event) (st : AppState) :
  tasks_wf st -> loads_ok [e] st -> tasks_wf (snd (step e st)).
Proof.
  intros Hwf [He _]. destruct e as [allTasks| | |]; simpl.
  - destruct He as [Hnd Hlt]. now apply wf_loadTasks.
  - now apply wf_addTask.
  - now apply wf_updateTaskSlot.
  - exact Hwf.
Qed.

Lemma wf_run (es : list event) (st : AppState) :
  tasks_wf st -> loads_ok es st -> tasks_wf (run es st).
Proof.
  revert st. induction es as [|e es IH]; intros st Hwf Hok; [exact Hwf|].
  destruct Hok as [He Hok]. simpl. apply IH; [|exact Hok].
  apply wf_step; [exact Hwf | split; [exact He | exact I]].
Qed.

(** ** moveToSlot: the task changes bucket *)

Lemma relocate_target (st : AppState) (T u : Task) (slot : jsval) :
  NoDup (map task_id (tasks st)) -> In T (tasks st) ->
  In u (map (relocate (JStr (Number_toString (task_id T))) slot) (tasks st)) ->
  task_id u = task_id T -> u = set_slot T slot.
Proof.
  intros Hnd HT Hu Hid. apply in_map_iff in Hu. destruct Hu as [t [<- Ht]].
  rewrite relocate_id in Hid.
  rewrite (NoDup_key_inj task_id _ t T Hnd Ht HT Hid).
  apply relocate_hit, id_matches_self.
Qed.

(** C1. When [moveToSlot] is called with the id of a task [T] held in memory
    (ids being unique) and a label [L], afterwards [byBucket(L)] contains
    [T] with its slot set to [L]; the task of that id has slot [L]; it is a
    member of no other bucket, the unscheduled pool and its previous bucket
    included; and every bucket other than [L] and the one [T] came from has
    the members it had.  The label need not be one of the calendar: the
    handler does not consult it. *)
Theorem moveToSlot_moves (st : AppState) (T : Task) (L : jsstring) :
  NoDup (map task_id (tasks st)) ->
  In T (tasks st) ->
  let st' :=
    snd (updateTaskSlot (JStr (Number_toString (task_id T))) (JStr L) st) in
  In (set_slot T (JStr L)) (byBucket L st') /\
  (forall u, In u (tasks st') -> task_id u = task_id T ->
             task_slot u = JStr L) /\
  (forall b u, b <> Slot L -> In u (members b st') ->
               task_id u <> task_id T) /\
  (forall b, b <> Slot L -> bucket_key b <> task_slot T ->
             members b st' = members b st).
Proof.
  intros Hnd HT st'.
  assert (Htasks : tasks st' =
            map (relocate (JStr (Number_toString (task_id T))) (JStr L))
                (tasks st)) by reflexivity.
  repeat split.
  - apply (in_members (Slot L)). split; [|reflexivity].
    rewrite Htasks. apply in_map_iff. exists T. split; [|exact HT].
    apply relocate_hit, id_matches_self.
  - intros u Hu Hid. rewrite Htasks in Hu.
    now rewrite (relocate_target st T u (JStr L) Hnd HT Hu Hid).
  - intros b u Hb Hu Hid. apply in_members in Hu. destruct Hu as [Hu Hslot].
    rewrite Htasks in Hu.
    rewrite (relocate_target st T u (JStr L) Hnd HT Hu Hid) in Hslot.
    simpl in Hslot. apply Hb. apply bucket_key_inj. now rewrite <- Hslot.
  - intros b Hb Hsrc. rewrite !members_filter, Htasks.
    apply filter_map_frame. intros t Ht.
    destruct (id_matches (task_id t) (JStr (Number_toString (task_id T))))
      eqn:E.
    + right. rewrite id_matches_toString in E. apply N.eqb_eq in E.
      rewrite (NoDup_key_inj task_id _ t T Hnd Ht HT E).
      rewrite (relocate_hit _ _ _ (id_matches_self (task_id T))).
      split; apply strict_eq_neq; simpl.
      * intros H. apply Hb. apply bucket_key_inj. now rewrite <- H.
      * intros H. now apply Hsrc.
    + left. now apply relocate_miss.
Qed.

Lemma moveToSlot_moves_witness :
  NoDup (map task_id (tasks two_tasks)) /\
  In milk (tasks two_tasks) /\
  In (set_slot milk (JStr (jstr "09:00")))
     (byBucket (jstr "09:00") milk_at_nine) /\
  (forall u, In u (tasks milk_at_nine) -> task_id u = task_id milk ->
             task_slot u = JStr (jstr "09:00")) /\
  (forall b u, b <> Slot (jstr "09:00") -> In u (members b milk_at_nine) ->
               task_id u <> task_id milk) /\
  (forall b, b <> Slot (jstr "09:00") -> bucket_key b <> task_slot milk ->
             members b milk_at_nine = members b two_tasks).
Proof.
  assert (Hnd : NoDup (map task_id (tasks two_tasks))).
  { simpl. constructor; [simpl; intros [H|[]]; discriminate |].
    constructor; [intros [] | constructor]. }
  assert (Hin : In milk (tasks two_tasks)) by (left; reflexivity).
  split; [exact Hnd|]. split; [exact Hin|].
  exact (moveToSlot_moves two_tasks milk (jstr "09:00") Hnd Hin).
Defined.

(** ** The pill tokens through a session *)

Lemma token_slot_mark (v : jsval) (b : bool) (ps : list Pill) :
  map token_slot (map (mark v b) ps) = map token_slot ps.
Proof.
  apply map_key_preserved. intros p. unfold token_slot.
  now rewrite mark_id, mark_time.
Qed.

Lemma token_slot_step (e : event) (st : AppState) :
  map token_slot (pills (snd (step e st))) = map token_slot (pills st).
Proof.
  destruct e; simpl; try reflexivity. apply token_slot_mark.
Qed.

Lemma token_slot_run (es : list event) (st : AppState) :
  map token_slot (pills (run es st)) = map token_slot (pills st).
Proof.
  revert st. induction es as [|e es IH]; intros st; simpl; [reflexivity|].
  rewrite IH. apply token_slot_step.
Qed.

Lemma pill_ids_of_slots (ps : list Pill) :
  map pill_id ps = map fst (map token_slot ps).
Proof. rewrite map_map. reflexivity. Qed.

(** C8. The initial tokens are, in order, one per slot of the calendar,
    each with the index and the label of its slot and none of them taken.
    A [setTaken] leaves the index and the label of every token, in order, as
    they were; so after any session there is still exactly one token per
    slot, with that slot's index and label, and as many tokens as slots. *)
Theorem one_token_per_slot :
  map token_slot initial_pills = calendar_slots /\
  forallb (fun p => negb (pill_taken p)) initial_pills = true /\
  (forall st pillIndex taken,
     map token_slot (pills (snd (updatePillStatus pillIndex taken st)))
     = map token_slot (pills st)) /\
  (forall es g,
     map token_slot (pills (run es (initial g))) = calendar_slots /\
     NoDup (map pill_id (pills (run es (initial g)))) /\
     List.length (pills (run es (initial g))) = List.length timeSlots).
Proof.
  split; [reflexivity|]. split; [reflexivity|]. split.
  - intros st v b. apply token_slot_mark.
  - intros es g.
    assert (H : map token_slot (pills (run es (initial g))) = calendar_slots)
      by (rewrite token_slot_run; reflexivity).
    split; [exact H|]. split.
    + rewrite pill_ids_of_slots, H. vm_compute.
      repeat (constructor;
              [simpl; intros Hin;
               repeat (destruct Hin as [Hin|Hin]; [discriminate Hin|]);
               exact Hin |]).
      constructor.
    + rewrite <- (length_map token_slot), H. reflexivity.
Qed.

(** ** Arguments that match nothing, labels outside the calendar *)

Lemma updateTaskSlot_miss (st : AppState) (taskId slot : jsval) :
  (forall t, In t (tasks st) -> id_matches (task_id t) taskId = false) ->
  updateTaskSlot taskId slot st = (Normal JUndefined, st).
Proof.
  intros Hmiss. unfold updateTaskSlot.
  rewrite (map_fixed (relocate taskId slot) (tasks st))
    by (intros t Ht; apply relocate_miss, Hmiss, Ht).
  destruct (find _ (tasks st)) as [t|] eqn:E.
  - apply find_some in E. destruct E as [Hin Hm].
    rewrite (Hmiss t Hin) in Hm. discriminate.
  - now destruct st.
Qed.

Lemma updatePillStatus_miss (st : AppState) (pillIndex : jsval) (b : bool) :
  (forall p, In p (pills st) -> id_matches (pill_id p) pillIndex = false) ->
  updatePillStatus pillIndex b st = (Normal JUndefined, st).
Proof.
  intros Hmiss. unfold updatePillStatus.
  rewrite (map_fixed (mark pillIndex b) (pills st)).
  - now destruct st.
  - intros p Hp. unfold mark. now rewrite (Hmiss p Hp).
Qed.


Lemma find_target (st : AppState) (T : Task) (slot : jsval) :
  NoDup (map task_id (tasks st)) -> In T (tasks st) ->
  find (fun t => id_matches (task_id t) (JStr (Number_toString (task_id T))))
       (map (relocate (JStr (Number_toString (task_id T))) slot) (tasks st))
  = Some (set_slot T slot).
Proof.
  intros Hnd HT.
  set (arg := JStr (Number_toString (task_id T))).
  destruct (find_exists (fun t => id_matches (task_id t) arg)
              (map (relocate arg slot) (tasks st))) as [u Hu].
  - exists (set_slot T slot). split; [|apply id_matches_self].
    apply in_map_iff. exists T. split; [|exact HT].
    apply relocate_hit, id_matches_self.
  - rewrite Hu. f_equal. apply find_some in Hu. destruct Hu as [Hin Hm].
    apply (relocate_target st T u slot Hnd HT Hin).
    unfold arg in Hm. rewrite id_matches_toString in Hm. now apply N.eqb_eq.
Qed.




(** ** create: the guard of the title editor and [addTask] *)

Lemma guard_blank (title : jsstring) :
  forallb isWhiteSpace title = true ->
  negb (jsstring_eqb (trim title) []) = false.
Proof.
  intros H. apply trim_nil in H. rewrite H. reflexivity.
Qed.

Lemma guard_valid (title : jsstring) :
  trim title <> [] -> negb (jsstring_eqb (trim title) []) = true.
Proof.
  intros H. apply jsstring_eqb_neq in H. now rewrite H.
Qed.

(** C3, as the code has it.  When the title typed so far is empty or made
    of white space only, neither gesture that creates a task does so:
    pressing a key (Enter included) leaves the editor and the application
    state as they were, leaving the input closes and clears the editor and
    leaves the application state as it was; so no task is added and no
    create request is sent.  Both handlers return normally: no
    [InvalidInput] is raised. *)
Theorem blank_title_is_ignored (key now : jsstring) (ui : Editor)
  (st : AppState) :
  forallb isWhiteSpace (newTaskText ui) = true ->
  handleKeyDown key now ui st = (Normal JUndefined, ui, st) /\
  onBlur now ui st =
    (Normal JUndefined, {| isEditing := false; newTaskText := [] |}, st).
Proof.
  intros Hblank. unfold handleKeyDown, onBlur.
  rewrite (guard_blank _ Hblank), andb_false_r. split; reflexivity.
Qed.

Lemma blank_title_is_ignored_witness :
  forallb isWhiteSpace (jstr "   ") = true /\
  handleKeyDown (jstr "Enter") now0
    {| isEditing := true; newTaskText := jstr "   " |} two_tasks
  = (Normal JUndefined,
     {| isEditing := true; newTaskText := jstr "   " |}, two_tasks).
Proof.
  split; [reflexivity|].
  exact (proj1 (blank_title_is_ignored (jstr "Enter") now0
                  {| isEditing := true; newTaskText := jstr "   " |}
                  two_tasks eq_refl)).
Defined.

(** C3 as stated fails: Enter on a title of three spaces does not fail with
    [InvalidInput], and neither does leaving the input. *)
Lemma blank_title_reports_no_error :
  fst (fst (handleKeyDown (jstr "Enter") now0
              {| isEditing := true; newTaskText := jstr "   " |} two_tasks))
    <> Throw InvalidInput /\
  fst (fst (onBlur now0
              {| isEditing := true; newTaskText := jstr "   " |} two_tasks))
    <> Throw InvalidInput.
Proof. split; discriminate. Qed.

Lemma unscheduled_app (l r : list Task) :
  unscheduled (l ++ r) = unscheduled l ++ unscheduled r.
Proof. apply filter_app. Qed.

(** C4. For a title that is not blank, the create gesture (Enter in the
    title editor) is [addTask] on that title, and after it the unscheduled
    pool is the pool of before followed by exactly one task: the new one,
    with the key handed out by the store, the title, status "pending" and no
    slot.  The new task was not in memory before, and no slot bucket
    changes. *)
Theorem create_adds_one_unscheduled (title date : jsstring) (st : AppState) :
  trim title <> [] ->
  let new :=
    {| task_id := keygen (db st); task_title := title; task_date := date;
       task_status := jstr "pending"; task_slot := JNull |} in
  let st' := snd (addTask title date st) in
  snd (handleKeyDown (jstr "Enter") date
         {| isEditing := true; newTaskText := title |} st) = st' /\
  snd (onBlur date {| isEditing := true; newTaskText := title |} st) = st' /\
  unscheduled (tasks st') = unscheduled (tasks st) ++ [new] /\
  (forall L, byBucket L st' = byBucket L st) /\
  (tasks_wf st -> ~ In new (tasks st)).
Proof.
  intros Hvalid new st'. repeat split.
  - unfold handleKeyDown. simpl newTaskText.
    now rewrite (guard_valid _ Hvalid).
  - unfold onBlur. simpl newTaskText. now rewrite (guard_valid _ Hvalid).
  - unfold st', addTask. simpl. now rewrite unscheduled_app.
  - intros L. rewrite !byBucket_filter. unfold st', addTask. simpl.
    rewrite filter_app. simpl. apply app_nil_r.
  - intros [_ Hlt] Hin. rewrite Forall_forall in Hlt.
    specialize (Hlt new Hin). simpl in Hlt. lia.
Qed.

Lemma create_adds_one_unscheduled_witness :
  trim (jstr "Buy milk") <> [] /\
  unscheduled (tasks (snd (addTask (jstr "Buy milk") now0 (initial 1))))
  = unscheduled (tasks (initial 1)) ++ [milk].
Proof.
  assert (H : trim (jstr "Buy milk") <> []) by (vm_compute; discriminate).
  split; [exact H|].
  exact (proj1 (proj2 (proj2
           (create_adds_one_unscheduled (jstr "Buy milk") now0 (initial 1) H)))).
Defined.

(** ** moveToSlot twice, and moveToSlot to the slot the task is in *)

Lemma tasks_updateTaskSlot_twice (st : AppState) (taskId slot : jsval) :
  tasks (snd (updateTaskSlot taskId slot (snd (updateTaskSlot taskId slot st))))
  = tasks (snd (updateTaskSlot taskId slot st)).
Proof.
  simpl. rewrite map_map. apply map_ext. intros t. apply relocate_idem.
Qed.

(** C5. The same move applied twice in a row leaves the tasks, hence the
    unscheduled pool and the bucket of every label, as the first
    application left them; the pill tokens too. *)
Theorem moveToSlot_idempotent (st : AppState) (taskId slot : jsval) :
  let once := snd (updateTaskSlot taskId slot st) in
  let twice := snd (updateTaskSlot taskId slot once) in
  unscheduled (tasks twice) = unscheduled (tasks once) /\
  (forall L, byBucket L twice = byBucket L once) /\
  (forall b, members b twice = members b once) /\
  pills twice = pills once.
Proof.
  intros once twice.
  assert (H : tasks twice = tasks once)
    by apply tasks_updateTaskSlot_twice.
  repeat split.
  - now rewrite H.
  - intros L. unfold byBucket. now rewrite H.
  - intros b. rewrite !members_filter. now rewrite H.
Qed.

(** C6. A [moveToSlot] on the id of a task held in memory (ids being
    unique) returns normally and sends the store exactly one request, an
    upsert of the whole task with its slot set to the destination.  When the
    task is already at the destination the tasks in memory stay as they
    were and the upsert, of the task as it is, is sent all the same. *)
Theorem moveToSlot_always_persists (st : AppState) (T : Task) (slot : jsval) :
  NoDup (map task_id (tasks st)) ->
  In T (tasks st) ->
  let r := updateTaskSlot (JStr (Number_toString (task_id T))) slot st in
  fst r = Normal JUndefined /\
  requests (db (snd r)) = requests (db st) ++ [DbPut (set_slot T slot)] /\
  (task_slot T = slot ->
     tasks (snd r) = tasks st /\
     requests (db (snd r)) = requests (db st) ++ [DbPut T]).
Proof.
  intros Hnd HT r.
  assert (Hreq : requests (db (snd r)) =
                 requests (db st) ++ [DbPut (set_slot T slot)]).
  { unfold r, updateTaskSlot. simpl.
    now rewrite (find_target st T slot Hnd HT). }
  split; [reflexivity|]. split; [exact Hreq|].
  intros Hat. split.
  - unfold r, updateTaskSlot. simpl. apply map_fixed. intros t Ht.
    destruct (id_matches (task_id t) (JStr (Number_toString (task_id T))))
      eqn:E; [|now apply relocate_miss].
    rewrite (relocate_hit _ _ _ E).
    rewrite id_matches_toString in E. apply N.eqb_eq in E.
    rewrite (NoDup_key_inj task_id _ t T Hnd Ht HT E).
    rewrite <- Hat. apply set_slot_same.
  - rewrite Hreq, <- Hat. now rewrite set_slot_same.
Qed.

Lemma moveToSlot_always_persists_witness :
  NoDup (map task_id (tasks milk_at_nine)) /\
  In (set_slot milk (JStr (jstr "09:00"))) (tasks milk_at_nine) /\
  requests (db (snd (updateTaskSlot (JStr (jstr "1")) (JStr (jstr "09:00"))
                       milk_at_nine)))
  = requests (db milk_at_nine)
    ++ [DbPut (set_slot milk (JStr (jstr "09:00")))].
Proof.
  assert (Hnd : NoDup (map task_id (tasks milk_at_nine))).
  { simpl. constructor; [simpl; intros [H|[]]; discriminate |].
    constructor; [intros [] | constructor]. }
  assert (Hin : In (set_slot milk (JStr (jstr "09:00"))) (tasks milk_at_nine))
    by (left; reflexivity).
  split; [exact Hnd|]. split; [exact Hin|].
  exact (proj2 (proj2 (proj2
           (moveToSlot_always_persists milk_at_nine
              (set_slot milk (JStr (jstr "09:00"))) (JStr (jstr "09:00"))
              Hnd Hin)) eq_refl)).
Defined.

(** ** setTaken: what [get] observes *)

Lemma pill_get_mark (j : N) (v : jsval) (b : bool) (ps : list Pill) :
  pill_get j (map (mark v b) ps) = option_map (mark v b) (pill_get j ps).
Proof.
  unfold pill_get. apply find_map_commute. intros p. now rewrite mark_id.
Qed.

Lemma pill_get_id (j : N) (ps : list Pill) (p : Pill) :
  pill_get j ps = Some p -> pill_id p = j.
Proof.
  intros H. apply find_some in H. destruct H as [_ H]. now apply N.eqb_eq.
Qed.

Lemma pill_get_other (i j : N) (b : bool) (ps : list Pill) :
  j <> i ->
  pill_get j (map (mark (JStr (Number_toString i)) b) ps) = pill_get j ps.
Proof.
  intros Hne. rewrite pill_get_mark.
  destruct (pill_get j ps) as [q|] eqn:E; [|reflexivity].
  simpl. f_equal. unfold mark.
  rewrite id_matches_toString, (pill_get_id _ _ _ E).
  apply N.eqb_neq in Hne. now rewrite Hne.
Qed.

Lemma pill_get_hit (i : N) (b : bool) (ps : list Pill) (p : Pill) :
  pill_get i ps = Some p ->
  pill_get i (map (mark (JStr (Number_toString i)) b) ps)
  = Some (set_taken p b).
Proof.
  intros E. rewrite pill_get_mark, E. simpl. f_equal. unfold mark.
  now rewrite id_matches_toString, (pill_get_id _ _ _ E), N.eqb_refl.
Qed.

(** C7, as the code has it.  For a slot index [i] that has a token [p]:
    after setTaken(i, true) then setTaken(i, false) the token of [i] is [p]
    not taken, so it is back to what [get(i)] gave before when [p] was not
    taken before; the tokens of the other slots are as before; and a
    setTaken with the value the token already has returns normally and
    changes nothing that [get] observes, nor the tasks, nor the store. *)
Theorem setTaken_round_trip (st : AppState) (i : N) (p : Pill) :
  pill_get i (pills st) = Some p ->
  let arg := JStr (Number_toString i) in
  let back :=
    snd (updatePillStatus arg false (snd (updatePillStatus arg true st))) in
  pill_get i (pills back) = Some (set_taken p false) /\
  (pill_taken p = false -> pill_get i (pills back) = pill_get i (pills st)) /\
  (forall j, j <> i -> pill_get j (pills back) = pill_get j (pills st)) /\
  (forall b, pill_taken p = b ->
     let r := updatePillStatus arg b st in
     fst r = Normal JUndefined /\
     (forall j, pill_get j (pills (snd r)) = pill_get j (pills st)) /\
     tasks (snd r) = tasks st /\ db (snd r) = db st).
Proof.
  intros Hp arg back.
  assert (Hback : pill_get i (pills back) = Some (set_taken p false)).
  { unfold back, arg. simpl.
    now rewrite (pill_get_hit i false _ _ (pill_get_hit i true _ _ Hp)). }
  split; [exact Hback|]. split; [|split].
  - intros Hnot. rewrite Hback, Hp, <- Hnot. now rewrite set_taken_same.
  - intros j Hne. unfold back, arg. simpl.
    now rewrite !pill_get_other by exact Hne.
  - intros b Hb r. split; [reflexivity|]. split; [|split; reflexivity].
    intros j. unfold r, arg. simpl. destruct (N.eq_dec j i) as [->|Hne].
    + rewrite (pill_get_hit i b _ _ Hp), Hp, <- Hb. now rewrite set_taken_same.
    + now apply pill_get_other.
Qed.

Lemma setTaken_round_trip_witness :
  pill_get 3 (pills two_tasks)
    = Some {| pill_id := 3; pill_time := jstr "11:00"; pill_taken := false |}
  /\
  pill_get 3
    (pills (snd (updatePillStatus (JStr (jstr "3")) false
                   (snd (updatePillStatus (JStr (jstr "3")) true two_tasks)))))
  = pill_get 3 (pills two_tasks).
Proof.
  split; [reflexivity|].
  exact (proj1 (proj2
           (setTaken_round_trip two_tasks 3
              {| pill_id := 3; pill_time := jstr "11:00"; pill_taken := false |}
              eq_refl)) eq_refl).
Defined.

(** C7 as stated fails when the token was taken before: from the session
    in which the pill of slot 3 is taken, setTaken(3, true) then
    setTaken(3, false) leaves it not taken, which is not its state of
    before. *)
Lemma setTaken_round_trip_from_taken :
  pill_get 3 (pills pill3_taken)
    = Some {| pill_id := 3; pill_time := jstr "11:00"; pill_taken := true |}
  /\
  pill_get 3 (pills pill3_round_trip)
    = Some {| pill_id := 3; pill_time := jstr "11:00"; pill_taken := false |}
  /\
  pill_get 3 (pills pill3_round_trip) <> pill_get 3 (pills pill3_taken).
Proof. split; [reflexivity|]. split; [reflexivity|]. vm_compute. discriminate. Qed.

(** ** moveToSlot: the frame *)

Lemma Forall2_map_right {A : Type} (R : A -> A -> Prop) (g : A -> A)
  (l : list A) :
  (forall a, R a (g a)) -> Forall2 R l (map g l).
Proof.
  intros H. induction l as [|a l IH]; simpl; constructor; auto.
Qed.

(** C9. A [moveToSlot] keeps the tasks in place and, task by task, keeps
    the id, the title, the creation date and the status; a task whose id
    the argument does not match is kept whole.  The pill tokens are kept
    too. *)
Theorem moveToSlot_changes_only_slot (st : AppState) (taskId slot : jsval) :
  let st' := snd (updateTaskSlot taskId slot st) in
  Forall2
    (fun t t' =>
       task_id t' = task_id t /\
       task_title t' = task_title t /\
       task_date t' = task_date t /\
       task_status t' = task_status t /\
       (id_matches (task_id t) taskId = false -> t' = t))
    (tasks st) (tasks st') /\
  pills st' = pills st.
Proof.
  intros st'. split; [|reflexivity].
  apply (Forall2_map_right _ (relocate taskId slot)).
  intros t. unfold relocate.
  destruct (id_matches (task_id t) taskId); simpl; repeat split; auto.
  discriminate.
Qed.

(** ** Matching an argument against an id *)

Lemma parse_Number_toString (n : N) :
  parse_decimal (Number_toString n) = Some n.
Proof.
  unfold parse_decimal, Number_toString, jstr.
  rewrite map_map.
  rewrite (map_ext _ (fun a => a) ascii_N_embedding), map_id.
  rewrite string_of_list_ascii_of_string, NilEmpty.usu. simpl.
  now rewrite Unsigned.of_to.
Qed.

(** C10. Both handlers compare their argument, with [===], to the decimal
    string of the stored id (ids being at most 2^53, up to where
    [toString] gives all the digits).  [moveToSlot] gives the new slot to a
    task, and keeps the rest of it, exactly when the argument is the string
    of the decimal digits of its id, and keeps the task whole otherwise;
    [setTaken] does the same with the tokens, their index and their taken
    flag.  An argument that is a number matches nothing, whatever its
    value: the state is as it was.  The decimal string reads back as the
    id, so two ids never share it. *)
Theorem ids_match_by_decimal_string :
  (forall st taskId slot,
     Forall (fun t => (task_id t <= 2 ^ 53)%N) (tasks st) ->
     Forall2
       (fun t t' =>
          (taskId = JStr (Number_toString (task_id t)) /\
           task_slot t' = slot /\ task_id t' = task_id t /\
           task_title t' = task_title t /\ task_date t' = task_date t /\
           task_status t' = task_status t)
          \/ (taskId <> JStr (Number_toString (task_id t)) /\ t' = t))
       (tasks st) (tasks (snd (updateTaskSlot taskId slot st)))) /\
  (forall st pillIndex taken,
     Forall (fun p => (pill_id p <= 2 ^ 53)%N) (pills st) ->
     Forall2
       (fun p p' =>
          (pillIndex = JStr (Number_toString (pill_id p)) /\
           pill_taken p' = taken /\ pill_id p' = pill_id p /\
           pill_time p' = pill_time p)
          \/ (pillIndex <> JStr (Number_toString (pill_id p)) /\ p' = p))
       (pills st) (pills (snd (updatePillStatus pillIndex taken st)))) /\
  (forall st n slot, updateTaskSlot (JNum n) slot st = (Normal JUndefined, st)) /\
  (forall st n taken,
     updatePillStatus (JNum n) taken st = (Normal JUndefined, st)) /\
  (forall n, (n <= 2 ^ 53)%N -> parse_decimal (Number_toString n) = Some n).
Proof.
  split; [|split; [|split; [|split]]].
  - intros st v s _. apply (Forall2_map_right _ (relocate v s)).
    intros t. unfold relocate.
    destruct (id_matches (task_id t) v) eqn:E.
    + left. split; [now apply id_matches_iff | now repeat split].
    + right. split; [|reflexivity]. intros H.
      apply id_matches_iff in H. congruence.
  - intros st v b _. apply (Forall2_map_right _ (mark v b)).
    intros p. unfold mark.
    destruct (id_matches (pill_id p) v) eqn:E.
    + left. split; [now apply id_matches_iff | now repeat split].
    + right. split; [|reflexivity]. intros H.
      apply id_matches_iff in H. congruence.
  - intros st n s. now apply updateTaskSlot_miss.
  - intros st n b. now apply updatePillStatus_miss.
  - intros n _. apply parse_Number_toString.
Qed.

Lemma ids_match_by_decimal_string_witness :
  Forall (fun t => (task_id t <= 2 ^ 53)%N) (tasks two_tasks) /\
  Forall2
    (fun t t' =>
       (JStr (jstr "1") = JStr (Number_toString (task_id t)) /\
        task_slot t' = JStr (jstr "09:00") /\ task_id t' = task_id t /\
        task_title t' = task_title t /\ task_date t' = task_date t /\
        task_status t' = task_status t)
       \/ (JStr (jstr "1") <> JStr (Number_toString (task_id t)) /\ t' = t))
    (tasks two_tasks) (tasks milk_at_nine) /\
  parse_decimal (Number_toString 16) = Some 16%N.
Proof.
  assert (Hb : Forall (fun t => (task_id t <= 2 ^ 53)%N) (tasks two_tasks)).
  { simpl. repeat constructor; simpl; intros H; discriminate H. }
  assert (H16 : (16 <= 2 ^ 53)%N) by (intros H; discriminate H).
  split; [exact Hb|]. split.
  - exact (proj1 ids_match_by_decimal_string two_tasks (JStr (jstr "1"))
             (JStr (jstr "09:00")) Hb).
  - exact (proj2 (proj2 (proj2 (proj2 ids_match_by_decimal_string))) 16%N H16).
Defined.

Example number_argument_never_matches :
  tasks (snd (updateTaskSlot (JNum 1) (JStr (jstr "09:00")) two_tasks))
  = tasks two_tasks /\
  tasks (snd (updateTaskSlot (JStr (jstr "01")) (JStr (jstr "09:00")) two_tasks))
  = tasks two_tasks.
Proof. split; reflexivity. Qed.

Example morning_page :
  tasks (snd (session morning (first_page 5)))
  = [plants;
     {| task_id := 5; task_title := jstr " Buy milk "; task_date := now0;
        task_status := jstr "pending"; task_slot := JStr (jstr "09:00") |}]
  /\ pill_right_shows 3 (pills (snd (session morning (first_page 5)))) = true
  /\ fst (session morning (first_page 5))
     = {| isEditing := false; newTaskText := [] |}.
Proof. repeat split; reflexivity. Qed.

(** ** Moves compose *)

Lemma relocate_slot_test (v : jsval) (L : jsstring) (t : Task) :
  strict_eq (task_slot (relocate v (JStr L) t)) (JStr L)
  = strict_eq (task_slot t) (JStr L) || id_matches (task_id t) v.
Proof.
  unfold relocate. destruct (id_matches (task_id t) v); simpl.
  - now rewrite jsstring_eqb_refl, orb_true_r.
  - now rewrite orb_false_r.
Qed.

(** X1. After a [moveToSlot] to label [L], whatever the argument, the zone
    of [L] holds the tasks that were in it or that the argument matches, in
    the order of the task list (so a task moved in takes the place of its
    creation, not the last place), and every other bucket holds what it
    held less the tasks the argument matches. *)
Theorem buckets_after_move (st : AppState) (taskId : jsval) (L : jsstring) :
  let st' := snd (updateTaskSlot taskId (JStr L) st) in
  byBucket L st' =
    map (relocate taskId (JStr L))
        (filter (fun t => strict_eq (task_slot t) (JStr L)
                          || id_matches (task_id t) taskId)
                (tasks st)) /\
  (forall b, b <> Slot L ->
     members b st' =
       filter (fun t => negb (id_matches (task_id t) taskId)) (members b st)).
Proof.
  intros st'. split.
  - rewrite byBucket_filter. unfold st'. simpl. rewrite filter_map_swap.
    f_equal. apply filter_ext. intros t. apply relocate_slot_test.
  - intros b Hb. rewrite !members_filter. unfold st'. simpl.
    assert (Hkey : strict_eq (JStr L) (bucket_key b) = false).
    { apply strict_eq_neq. intros H. apply Hb, bucket_key_inj. now rewrite <- H. }
    induction (tasks st) as [|t l IH]; simpl; [reflexivity|].
    destruct (id_matches (task_id t) taskId) eqn:E.
    + rewrite (relocate_hit _ _ _ E). simpl task_slot. rewrite Hkey, IH.
      destruct (strict_eq (task_slot t) (bucket_key b)); simpl;
        [rewrite E; reflexivity | reflexivity].
    + rewrite (relocate_miss _ _ _ E), IH.
      destruct (strict_eq (task_slot t) (bucket_key b)); simpl;
        [rewrite E; reflexivity | reflexivity].
Qed.

Lemma buckets_after_move_witness :
  Unscheduled <> Slot (jstr "09:00") /\
  members Unscheduled milk_at_nine =
    filter (fun t => negb (id_matches (task_id t) (JStr (jstr "1"))))
           (members Unscheduled two_tasks).
Proof.
  assert (H : Unscheduled <> Slot (jstr "09:00")) by discriminate.
  split; [exact H|].
  exact (proj2 (buckets_after_move two_tasks (JStr (jstr "1")) (jstr "09:00"))
           Unscheduled H).
Defined.


Lemma relocate_commute (v1 v2 s1 s2 : jsval) (t : Task) :
  v1 <> v2 ->
  relocate v1 s1 (relocate v2 s2 t) = relocate v2 s2 (relocate v1 s1 t).
Proof.
  intros Hne.
  destruct (id_matches (task_id t) v1) eqn:E1,
           (id_matches (task_id t) v2) eqn:E2.
  - exfalso. apply Hne. apply id_matches_iff in E1, E2. congruence.
  - rewrite (relocate_miss v2 s2 t E2), (relocate_hit v1 s1 t E1).
    symmetry. apply relocate_miss. exact E2.
  - rewrite (relocate_miss v1 s1 t E1), (relocate_hit v2 s2 t E2).
    apply relocate_miss. exact E1.
  - now rewrite (relocate_miss v2 s2 t E2), (relocate_miss v1 s1 t E1),
      (relocate_miss v2 s2 t E2).
Qed.



(** X3. Moves of different tasks commute: with two different arguments the
    tasks, every bucket and the pill tokens are the same whichever move
    comes first. *)
Theorem moves_commute (st : AppState) (v1 v2 s1 s2 : jsval) :
  v1 <> v2 ->
  let a := snd (updateTaskSlot v1 s1 (snd (updateTaskSlot v2 s2 st))) in
  let b := snd (updateTaskSlot v2 s2 (snd (updateTaskSlot v1 s1 st))) in
  tasks a = tasks b /\
  (forall k, members k a = members k b) /\
  pills a = pills b.
Proof.
  intros Hne a b.
  assert (H : tasks a = tasks b).
  { unfold a, b. simpl. rewrite !map_map. apply map_ext.
    intros t. now apply relocate_commute. }
  split; [exact H|]. split; [|reflexivity].
  intros k. now rewrite !members_filter, H.
Qed.

Lemma moves_commute_witness :
  JStr (jstr "1") <> JStr (jstr "2") /\
  tasks (snd (updateTaskSlot (JStr (jstr "1")) (JStr (jstr "09:00"))
           (snd (updateTaskSlot (JStr (jstr "2")) (JStr (jstr "10:00"))
                   two_tasks))))
  = tasks (snd (updateTaskSlot (JStr (jstr "2")) (JStr (jstr "10:00"))
           (snd (updateTaskSlot (JStr (jstr "1")) (JStr (jstr "09:00"))
                   two_tasks)))).
Proof.
  assert (H : JStr (jstr "1") <> JStr (jstr "2")) by discriminate.
  split; [exact H|].
  exact (proj1 (moves_commute two_tasks (JStr (jstr "1")) (JStr (jstr "2"))
                  (JStr (jstr "09:00")) (JStr (jstr "10:00")) H)).
Defined.

Lemma NoDup_map_injective {A B : Type} (f : A -> B) (l : list A) :
  (forall a b, f a = f b -> a = b) -> NoDup l -> NoDup (map f l).
Proof.
  intros Hinj Hnd. induction Hnd as [|a l Ha Hl IH]; simpl; constructor.
  - intros H. apply in_map_iff in H. destruct H as [b [Hb Hin]].
    apply Hinj in Hb. now subst.
  - exact IH.
Qed.

(** X4. With unique ids a drop names at most one task: the elements drawn
    for the tasks carry pairwise different [data-task-id] attributes, and
    two tasks in memory that one argument matches are the same task. *)
Theorem drop_names_one_task (st : AppState) :
  NoDup (map task_id (tasks st)) ->
  NoDup (map data_task_id (tasks st)) /\
  (forall taskId t1 t2,
     In t1 (tasks st) -> In t2 (tasks st) ->
     id_matches (task_id t1) taskId = true ->
     id_matches (task_id t2) taskId = true -> t1 = t2).
Proof.
  intros Hnd. split.
  - unfold data_task_id. rewrite <- (map_map task_id (fun i => JStr (Number_toString i))).
    apply NoDup_map_injective; [|exact Hnd].
    intros i j H. injection H as H. now apply Number_toString_inj.
  - intros v t1 t2 H1 H2 M1 M2.
    apply (NoDup_key_inj task_id _ t1 t2 Hnd H1 H2).
    apply (id_matches_same _ _ _ M1 M2).
Qed.

Lemma drop_names_one_task_witness :
  NoDup (map task_id (tasks two_tasks)) /\
  NoDup (map data_task_id (tasks two_tasks)).
Proof.
  assert (Hnd : NoDup (map task_id (tasks two_tasks))).
  { simpl. constructor; [simpl; intros [H|[]]; discriminate |].
    constructor; [intros [] | constructor]. }
  split; [exact Hnd|].
  exact (proj1 (drop_names_one_task two_tasks Hnd)).
Defined.

(** ** Pill drops compose *)

Lemma mark_overwrite (v : jsval) (b1 b2 : bool) (p : Pill) :
  mark v b2 (mark v b1 p) = mark v b2 p.
Proof.
  unfold mark. destruct (id_matches (pill_id p) v) eqn:E; simpl; now rewrite E.
Qed.

Lemma mark_commute (v1 v2 : jsval) (b1 b2 : bool) (p : Pill) :
  v1 <> v2 -> mark v1 b1 (mark v2 b2 p) = mark v2 b2 (mark v1 b1 p).
Proof.
  intros Hne. unfold mark.
  destruct (id_matches (pill_id p) v1) eqn:E1,
           (id_matches (pill_id p) v2) eqn:E2; simpl;
    rewrite ?E1, ?E2; try reflexivity.
  exfalso. apply Hne. apply id_matches_iff in E1, E2. congruence.
Qed.

(** X5. Two [setTaken] on the same pill in a row leave the whole state as
    the second alone would: the last drop wins, and nothing else of the
    state records that the first one happened. *)
Theorem last_setTaken_wins (st : AppState) (pillIndex : jsval) (b1 b2 : bool) :
  updatePillStatus pillIndex b2 (snd (updatePillStatus pillIndex b1 st))
  = updatePillStatus pillIndex b2 st.
Proof.
  unfold updatePillStatus. simpl. rewrite map_map.
  now rewrite (map_ext _ _ (mark_overwrite pillIndex b1 b2)).
Qed.

(** X6. [setTaken] on different pills commute: with two different
    arguments the whole state is the same whichever drop comes first. *)
Theorem setTaken_commute (st : AppState) (v1 v2 : jsval) (b1 b2 : bool) :
  v1 <> v2 ->
  updatePillStatus v1 b1 (snd (updatePillStatus v2 b2 st))
  = updatePillStatus v2 b2 (snd (updatePillStatus v1 b1 st)).
Proof.
  intros Hne. unfold updatePillStatus. simpl. rewrite !map_map.
  now rewrite (map_ext _ _ (fun p => mark_commute v1 v2 b1 b2 p Hne)).
Qed.

Lemma setTaken_commute_witness :
  JStr (jstr "3") <> JStr (jstr "5") /\
  updatePillStatus (JStr (jstr "3")) true
    (snd (updatePillStatus (JStr (jstr "5")) true two_tasks))
  = updatePillStatus (JStr (jstr "5")) true
      (snd (updatePillStatus (JStr (jstr "3")) true two_tasks)).
Proof.
  assert (H : JStr (jstr "3") <> JStr (jstr "5")) by discriminate.
  split; [exact H|].
  exact (setTaken_commute two_tasks (JStr (jstr "3")) (JStr (jstr "5"))
           true true H).
Defined.

(** ** The pill of a row *)

Lemma slot_index_has_token (ps : list Pill) (i : N) :
  map token_slot ps = calendar_slots ->
  (i < N.of_nat (List.length timeSlots))%N ->
  exists p, pill_get i ps = Some p.
Proof.
  intros Hps Hi. apply find_exists.
  assert (Hin : In i (map pill_id ps)).
  { rewrite pill_ids_of_slots, Hps.
    change (map fst calendar_slots)
      with (map N.of_nat (seq 0 (List.length timeSlots))).
    apply in_map_iff. exists (N.to_nat i). split; [apply N2Nat.id|].
    apply in_seq. lia. }
  apply in_map_iff in Hin. destruct Hin as [p [Hid Hp]].
  exists p. split; [exact Hp | now apply N.eqb_eq].
Qed.

Lemma drop_on_zone
  (h : jsstring -> jsval -> AppState -> completion * AppState)
  (index : nat) (arg : jsval) (st : AppState) :
  drop_on (map h timeSlots) index arg st =
  match nth_error timeSlots index with
  | Some slot => snd (h slot arg st)
  | None => st
  end.
Proof.
  unfold drop_on. rewrite nth_error_map.
  now destruct (nth_error timeSlots index).
Qed.

Lemma zone_exists (index : nat) :
  (index < List.length timeSlots)%nat ->
  exists slot, nth_error timeSlots index = Some slot.
Proof.
  intros H. destruct (nth_error timeSlots index) as [slot|] eqn:E.
  - now exists slot.
  - apply nth_error_None in E. lia.
Qed.

(** Every gesture acts on the state of [App] as a handler of [App] or not
    at all. *)
Lemma perform_events (e : gesture) (page : Editor * AppState) :
  exists evs, snd (perform e page) = run evs (snd page).
Proof.
  destruct page as [ui st].
  destruct e as [|value|key now|now|allTasks|index v|index v|index v]; simpl.
  - exists []. now destruct (isEditing ui).
  - exists []. now destruct (isEditing ui).
  - destruct (isEditing ui); [|now exists []].
    unfold handleKeyDown. destruct (_ && _).
    + now exists [EvAdd (newTaskText ui) now].
    + now exists [].
  - destruct (isEditing ui); [|now exists []].
    unfold onBlur. simpl. destruct (negb _).
    + now exists [EvAdd (newTaskText ui) now].
    + now exists [].
  - now exists [EvLoad allTasks].
  - unfold task_zones. rewrite (drop_on_zone task_ondrop).
    destruct (nth_error timeSlots index) as [slot|].
    + now exists [EvMove v (JStr slot)].
    + now exists [].
  - unfold pill_left_zones.
    rewrite (drop_on_zone (fun _ : jsstring => pill_left_ondrop)).
    destruct (nth_error timeSlots index) as [slot|].
    + now exists [EvPill v false].
    + now exists [].
  - unfold pill_right_zones.
    rewrite (drop_on_zone (fun _ : jsstring => pill_right_ondrop)).
    destruct (nth_error timeSlots index) as [slot|].
    + now exists [EvPill v true].
    + now exists [].
Qed.

Lemma run_app (es1 es2 : list event) (st : AppState) :
  run (es1 ++ es2) st = run es2 (run es1 st).
Proof.
  revert st. induction es1 as [|e es1 IH]; intros st; simpl; [reflexivity|].
  apply IH.
Qed.

Lemma session_events (es : list gesture) (page : Editor * AppState) :
  exists evs, snd (session es page) = run evs (snd page).
Proof.
  revert page. induction es as [|e es IH]; intros page; simpl.
  - now exists [].
  - destruct (IH (perform e page)) as [evs2 H2].
    destruct (perform_events e page) as [evs1 H1].
    exists (evs1 ++ evs2). now rewrite run_app, <- H1.
Qed.

(** X7. In every session each row of the calendar draws its pill in
    exactly one of its two zones, never in both and never in none; on the
    first page it is the left (not taken) zone. *)
Theorem pill_in_one_zone (es : list gesture) (g : N) (i : N) :
  (i < N.of_nat (List.length timeSlots))%N ->
  let ps := pills (snd (session es (first_page g))) in
  xorb (pill_left_shows i ps) (pill_right_shows i ps) = true /\
  pill_left_shows i (pills (snd (first_page g))) = true.
Proof.
  intros Hi ps. split.
  - destruct (session_events es (first_page g)) as [evs Hevs].
    assert (Hps : map token_slot ps = calendar_slots).
    { unfold ps. rewrite Hevs. simpl. now rewrite token_slot_run. }
    destruct (slot_index_has_token ps i Hps Hi) as [p Hp].
    unfold pill_left_shows, pill_right_shows. rewrite Hp.
    now destruct (pill_taken p).
  - destruct (slot_index_has_token initial_pills i eq_refl Hi) as [p Hp].
    unfold pill_left_shows.
    change (pills (snd (first_page g))) with initial_pills. rewrite Hp.
    apply find_some in Hp. destruct Hp as [Hin _].
    assert (Hall : forallb (fun p => negb (pill_taken p)) initial_pills = true)
      by reflexivity.
    rewrite forallb_forall in Hall. now apply Hall.
Qed.

Lemma pill_in_one_zone_witness :
  (3 < N.of_nat (List.length timeSlots))%N /\
  xorb (pill_left_shows 3 (pills (snd (session morning (first_page 5)))))
       (pill_right_shows 3 (pills (snd (session morning (first_page 5)))))
  = true.
Proof.
  assert (H : (3 < N.of_nat (List.length timeSlots))%N) by reflexivity.
  split; [exact H|].
  exact (proj1 (pill_in_one_zone morning 5 3 H)).
Defined.

(** X8. The row of the zone a pill is dropped on plays no part: a drop on
    the right zone of any row does what a drop on the right zone of any
    other row does, which is to draw the pill the element belongs to in the
    right zone of its own row; likewise on the left. *)
Theorem pill_zone_row_is_ignored (z1 z2 : nat) (page : Editor * AppState)
  (i : N) (p : Pill) :
  (z1 < List.length timeSlots)%nat ->
  (z2 < List.length timeSlots)%nat ->
  pill_get i (pills (snd page)) = Some p ->
  (forall arg,
     perform (DropOnPillRight z1 arg) page = perform (DropOnPillRight z2 arg) page
     /\ perform (DropOnPillLeft z1 arg) page = perform (DropOnPillLeft z2 arg) page)
  /\
  pill_right_shows i
    (pills (snd (perform (DropOnPillRight z1 (data_pill_index p)) page))) = true
  /\
  pill_left_shows i
    (pills (snd (perform (DropOnPillLeft z1 (data_pill_index p)) page))) = true.
Proof.
  intros H1 H2 Hp. destruct page as [ui st]. simpl in Hp.
  destruct (zone_exists z1 H1) as [s1 E1].
  destruct (zone_exists z2 H2) as [s2 E2].
  assert (Hid : data_pill_index p = JStr (Number_toString i))
    by (unfold data_pill_index; now rewrite (pill_get_id _ _ _ Hp)).
  split; [|split].
  - intros arg. simpl. unfold pill_right_zones, pill_left_zones.
    rewrite !(drop_on_zone (fun _ : jsstring => pill_right_ondrop)).
    rewrite !(drop_on_zone (fun _ : jsstring => pill_left_ondrop)).
    now rewrite E1, E2.
  - simpl. unfold pill_right_zones.
    rewrite (drop_on_zone (fun _ : jsstring => pill_right_ondrop)), E1, Hid.
    unfold pill_right_shows, pill_right_ondrop. simpl.
    now rewrite (pill_get_hit i true _ _ Hp).
  - simpl. unfold pill_left_zones.
    rewrite (drop_on_zone (fun _ : jsstring => pill_left_ondrop)), E1, Hid.
    unfold pill_left_shows, pill_left_ondrop. simpl.
    now rewrite (pill_get_hit i false _ _ Hp).
Qed.

Lemma pill_zone_row_is_ignored_witness :
  pill_get 3 (pills (snd (first_page 5)))
    = Some {| pill_id := 3; pill_time := jstr "11:00"; pill_taken := false |}
  /\
  pill_right_shows 3
    (pills (snd (perform (DropOnPillRight 0 (JStr (jstr "3"))) (first_page 5))))
  = true.
Proof.
  split; [reflexivity|].
  exact (proj1 (proj2
           (pill_zone_row_is_ignored 0 16 (first_page 5) 3
              {| pill_id := 3; pill_time := jstr "11:00"; pill_taken := false |}
              ltac:(simpl; lia) ltac:(simpl; lia) eq_refl))).
Defined.

(** ** Where the page draws a task *)

Lemma NoDup_timeSlots : NoDup timeSlots.
Proof.
  unfold timeSlots. simpl.
  repeat (constructor;
          [simpl; intros Hin;
           repeat (destruct Hin as [Hin|Hin]; [discriminate Hin|]);
           exact Hin |]).
  constructor.
Qed.

Lemma list_sum_map_add {A : Type} (f g : A -> nat) (l : list A) :
  list_sum (map (fun x => f x + g x) l)
  = list_sum (map f l) + list_sum (map g l).
Proof.
  induction l as [|a l IH]; simpl; [reflexivity|]. rewrite IH. lia.
Qed.

Lemma one_label_matches (s : jsstring) (l : list jsstring) :
  NoDup l ->
  list_sum (map (fun slot => if jsstring_eqb s slot then 1 else 0) l)
  = if existsb (fun slot => jsstring_eqb s slot) l then 1 else 0.
Proof.
  intros Hnd. induction Hnd as [|x l Hx Hl IH]; simpl; [reflexivity|].
  rewrite IH. destruct (jsstring_eqb s x) eqn:E; simpl; [|reflexivity].
  apply jsstring_eqb_eq in E. subst x.
  destruct (existsb (fun slot => jsstring_eqb s slot) l) eqn:Ex; [|reflexivity].
  exfalso. apply existsb_exists in Ex. destruct Ex as [y [Hy Hs]].
  apply jsstring_eqb_eq in Hs. subst y. now apply Hx.
Qed.

(** How many elements the page draws for a task of slot [v]. *)
Lemma drawn_once_or_never (v : jsval) :
  (if strict_eq v JNull then 1 else 0) +
  list_sum (map (fun slot =>
                   if negb (strict_eq v JNull) && strict_eq v (JStr slot)
                   then 1 else 0) timeSlots)
  = if slot_ok v then 1 else 0.
Proof.
  destruct v as [| |b|n|s]; try reflexivity.
  unfold slot_ok. simpl strict_eq. simpl negb. simpl andb. simpl orb.
  rewrite (one_label_matches s timeSlots NoDup_timeSlots). reflexivity.
Qed.

Lemma rendered_count_cons (t : Task) (ts : list Task) :
  rendered_count (t :: ts)
  = (if slot_ok (task_slot t) then 1 else 0) + rendered_count ts.
Proof.
  rewrite <- drawn_once_or_never. unfold rendered_count.
  rewrite Nat.add_assoc, (Nat.add_comm _ (List.length (unscheduled ts))).
  rewrite <- !Nat.add_assoc, <- list_sum_map_add, Nat.add_assoc.
  f_equal.
  - simpl. destruct (strict_eq (task_slot t) JNull); simpl; lia.
  - f_equal. apply map_ext. intros slot. unfold scheduled, slotTasks. simpl.
    destruct (strict_eq (task_slot t) JNull); simpl; [reflexivity|].
    now destruct (strict_eq (task_slot t) (JStr slot)).
Qed.

(** X9. The page draws one element for each task whose slot is [null] or a
    label of the calendar, and none for a task with any other slot: the
    number of task elements on the page is the number of tasks with such a
    slot.  A task moved to a label outside the calendar is still in memory
    and in the store, and is drawn nowhere. *)
Theorem page_draws_tasks_with_a_place (ts : list Task) :
  rendered_count ts
  = List.length (filter (fun t => slot_ok (task_slot t)) ts).
Proof.
  induction ts as [|t ts IH]; [reflexivity|].
  rewrite rendered_count_cons, IH. simpl.
  now destruct (slot_ok (task_slot t)).
Qed.

Lemma slot_ok_label (slot : jsstring) :
  In slot timeSlots -> slot_ok (JStr slot) = true.
Proof.
  intros H. unfold slot_ok. apply orb_true_iff. right. apply existsb_exists.
  exists slot. split; [exact H | apply strict_eq_refl].
Qed.

Lemma slots_valid_relocate (v : jsval) (slot : jsstring) (ts : list Task) :
  In slot timeSlots -> slots_valid ts = true ->
  slots_valid (map (relocate v (JStr slot)) ts) = true.
Proof.
  intros Hin. unfold slots_valid. rewrite !forallb_forall.
  intros H t' Ht'. apply in_map_iff in Ht'. destruct Ht' as [t [<- Ht]].
  unfold relocate. destruct (id_matches (task_id t) v); simpl.
  - now apply slot_ok_label.
  - now apply H.
Qed.

Lemma slots_valid_addTask (title date : jsstring) (st : AppState) :
  slots_valid (tasks st) = true ->
  slots_valid (tasks (snd (addTask title date st))) = true.
Proof.
  intros H. unfold slots_valid, addTask. simpl.
  rewrite forallb_app. unfold slots_valid in H. now rewrite H.
Qed.

Lemma slots_valid_perform (e : gesture) (page : Editor * AppState) :
  loads_valid [e] -> slots_valid (tasks (snd page)) = true ->
  slots_valid (tasks (snd (perform e page))) = true.
Proof.
  intros Hload Hok. destruct page as [ui st]. simpl in Hok.
  destruct e as [|value|key now|now|allTasks|index v|index v|index v]; simpl.
  - now destruct (isEditing ui).
  - now destruct (isEditing ui).
  - destruct (isEditing ui); [|exact Hok].
    unfold handleKeyDown. destruct (_ && _); [|exact Hok].
    now apply slots_valid_addTask.
  - destruct (isEditing ui); [|exact Hok].
    unfold onBlur. simpl. destruct (negb _); [|exact Hok].
    now apply slots_valid_addTask.
  - now inversion Hload.
  - unfold task_zones. rewrite (drop_on_zone task_ondrop).
    destruct (nth_error timeSlots index) as [slot|] eqn:E; [|exact Hok].
    apply slots_valid_relocate; [|exact Hok].
    now apply (nth_error_In _ _ E).
  - unfold pill_left_zones.
    rewrite (drop_on_zone (fun _ : jsstring => pill_left_ondrop)).
    now destruct (nth_error timeSlots index).
  - unfold pill_right_zones.
    rewrite (drop_on_zone (fun _ : jsstring => pill_right_ondrop)).
    now destruct (nth_error timeSlots index).
Qed.

(** X10. Through the gestures of the page a task only ever gets [null] or
    a label of the calendar for slot: when the rows the store loads have
    such slots, so have all tasks after any session, and the page then
    draws every task in memory exactly once. *)
Theorem every_task_is_drawn_once (es : list gesture)
  (page : Editor * AppState) :
  loads_valid es ->
  slots_valid (tasks (snd page)) = true ->
  let ts := tasks (snd (session es page)) in
  slots_valid ts = true /\ rendered_count ts = List.length ts.
Proof.
  intros Hloads Hok ts.
  assert (H : slots_valid ts = true).
  { unfold ts. clear ts. revert page Hok.
    induction es as [|e es IH]; intros page Hok; [exact Hok|].
    inversion Hloads as [|? ? He Hes]; subst. simpl.
    apply IH; [exact Hes|].
    apply slots_valid_perform; [|exact Hok].
    constructor; [exact He | constructor]. }
  split; [exact H|].
  rewrite page_draws_tasks_with_a_place.
  now rewrite (forallb_filter_id _ _ H).
Qed.

Lemma every_task_is_drawn_once_witness :
  loads_valid morning /\
  rendered_count (tasks (snd (session morning (first_page 5)))) = 2%nat.
Proof.
  assert (H : loads_valid morning).
  { unfold morning, loads_valid. repeat constructor. }
  split; [exact H|].
  exact (proj2 (every_task_is_drawn_once morning (first_page 5) H eq_refl)).
Defined.

(** ** What a session keeps *)

(** X11. Task ids stay pairwise different, and below the store's key
    generator, through every session from a state where they are, provided
    each load resolves with rows whose keys are pairwise different and below
    the generator. *)
Theorem keys_stay_unique (es : list event) (st : AppState) :
  NoDup (map task_id (tasks st)) ->
  Forall (fun t => (task_id t < keygen (db st))%N) (tasks st) ->
  loads_ok es st ->
  NoDup (map task_id (tasks (run es st))) /\
  Forall (fun t => (task_id t < keygen (db (run es st)))%N)
         (tasks (run es st)).
Proof.
  intros Hnd Hlt Hok. exact (wf_run es st (conj Hnd Hlt) Hok).
Qed.

Lemma keys_stay_unique_witness :
  loads_ok [EvLoad [plants]; EvAdd (jstr "Buy milk") now0;
            EvMove (JStr (jstr "5")) (JStr (jstr "09:00"))] (initial 5) /\
  NoDup (map task_id
           (tasks (run [EvLoad [plants]; EvAdd (jstr "Buy milk") now0;
                        EvMove (JStr (jstr "5")) (JStr (jstr "09:00"))]
                       (initial 5)))).
Proof.
  assert (H : loads_ok [EvLoad [plants]; EvAdd (jstr "Buy milk") now0;
                        EvMove (JStr (jstr "5")) (JStr (jstr "09:00"))]
                       (initial 5)).
  { simpl. repeat split; try exact I.
    - constructor; [intros [] | constructor].
    - constructor; [reflexivity | constructor]. }
  split; [exact H|].
  exact (proj1 (keys_stay_unique _ (initial 5)
                  (NoDup_nil N) (Forall_nil _) H)).
Defined.

Lemma task_core_relocate (v s : jsval) (t : Task) :
  task_core (relocate v s t) = task_core t.
Proof. unfold relocate. now destruct (id_matches (task_id t) v). Qed.

Lemma task_core_step (e : event) (st : AppState) :
  is_load e = false ->
  exists more,
    map task_core (tasks (snd (step e st)))
    = map task_core (tasks st) ++ more.
Proof.
  intros He. destruct e as [allTasks|title date|v s|v b]; simpl.
  - discriminate He.
  - rewrite map_app. now eexists.
  - exists []. rewrite app_nil_r.
    apply map_key_preserved. intros t. apply task_core_relocate.
  - exists []. now rewrite app_nil_r.
Qed.

Lemma run_only_appends (es : list event) (st : AppState) :
  forallb (fun e => negb (is_load e)) es = true ->
  exists more,
    map task_core (tasks (run es st)) = map task_core (tasks st) ++ more.
Proof.
  revert st. induction es as [|e es IH]; intros st Hes; simpl.
  - exists []. now rewrite app_nil_r.
  - simpl in Hes. apply andb_true_iff in Hes. destruct Hes as [He Hes].
    apply negb_true_iff in He.
    destruct (task_core_step e st He) as [m1 H1].
    destruct (IH (snd (step e st)) Hes) as [m2 H2].
    exists (m1 ++ m2). now rewrite H2, H1, app_assoc.
Qed.

Lemma arun_app (es1 es2 : list async_event) (a : Async) :
  arun (es1 ++ es2) a = arun es2 (arun es1 a).
Proof.
  revert a. induction es1 as [|e es1 IH]; intros a; simpl; [reflexivity|].
  apply IH.
Qed.

(** A session in which every add resolves before the next event is a
    session of the handlers taken one at a time. *)
Lemma arun_in_turn (es : list event) (st : AppState) :
  arun (flat_map in_turn es) (idle st) = idle (run es st).
Proof.
  revert st. induction es as [|e es IH]; intros st; [reflexivity|].
  simpl flat_map. rewrite arun_app. simpl run. rewrite <- IH. f_equal.
  now destruct e.
Qed.

(** X12. When every [addTask] resolves before the next event, no handler
    but the load deletes, reorders or rewrites a task: the ids, titles,
    dates and statuses of the tasks in memory stay what and where they
    were, and new tasks come after them.  It is not so when a move comes
    during the await: the resolution writes the array of its closure, so
    the moved task is back at its former slot in memory, the task with the
    new slot is gone from it, and the store has the upsert with the new
    slot. *)
Theorem adds_append_unless_overtaken :
  (forall es st,
     forallb (fun e => negb (is_load e)) es = true ->
     exists more,
       map task_core (tasks (app (arun (flat_map in_turn es) (idle st))))
       = map task_core (tasks st) ++ more) /\
  (forall st title date T L,
     tasks_wf st -> In T (tasks st) -> task_slot T <> JStr L ->
     let a :=
       arun [ACall title date; AMove (data_task_id T) (JStr L); AResume]
            (idle st) in
     inflight a = [] /\
     In T (tasks (app a)) /\
     ~ In (set_slot T (JStr L)) (tasks (app a)) /\
     In (DbPut (set_slot T (JStr L))) (requests (db (app a)))).
Proof.
  split.
  - intros es st Hes. rewrite arun_in_turn. simpl.
    now apply run_only_appends.
  - intros st title date T L [Hnd Hlt] HT Hslot a.
    split; [reflexivity|]. split; [|split].
    + unfold a. simpl. apply in_or_app. now left.
    + unfold a. simpl. intros Hin. apply in_app_or in Hin.
      destruct Hin as [Hin|[Hin|[]]].
      * apply Hslot.
        assert (E : set_slot T (JStr L) = T)
          by (apply (NoDup_key_inj task_id _ _ _ Hnd Hin HT); reflexivity).
        now rewrite <- E.
      * rewrite Forall_forall in Hlt. specialize (Hlt T HT).
        apply (f_equal task_id) in Hin. simpl in Hin. lia.
    + unfold a, data_task_id. simpl.
      rewrite (find_target st T (JStr L) Hnd HT).
      simpl. apply in_or_app. right. now left.
Qed.

Lemma adds_append_unless_overtaken_witness :
  tasks_wf two_tasks /\
  In milk
     (tasks (app (arun [ACall (jstr "Third") now0;
                        AMove (JStr (jstr "1")) (JStr (jstr "09:00"));
                        AResume] (idle two_tasks)))) /\
  In (DbPut (set_slot milk (JStr (jstr "09:00"))))
     (requests (db (app (arun [ACall (jstr "Third") now0;
                               AMove (JStr (jstr "1")) (JStr (jstr "09:00"));
                               AResume] (idle two_tasks))))).
Proof.
  assert (Hwf : tasks_wf two_tasks).
  { split; simpl.
    - constructor; [simpl; intros [H|[]]; discriminate |].
      constructor; [intros [] | constructor].
    - repeat constructor. }
  assert (Hin : In milk (tasks two_tasks)) by (left; reflexivity).
  assert (Hs : task_slot milk <> JStr (jstr "09:00")) by discriminate.
  split; [exact Hwf|].
  pose proof (proj2 adds_append_unless_overtaken two_tasks (jstr "Third") now0
                milk (jstr "09:00") Hwf Hin Hs) as H.
  split; [exact (proj1 (proj2 H)) | exact (proj2 (proj2 (proj2 H)))].
Defined.

(** X13. A [moveToSlot] is all or nothing: either its argument matches no
    task in memory and the call leaves the whole state as it was, store
    included, or it sends the store exactly one upsert, of a task that is in
    memory after the call, that the argument matches and that has the new
    slot. *)
Theorem move_is_all_or_nothing (st : AppState) (taskId slot : jsval) :
  let st' := snd (updateTaskSlot taskId slot st) in
  ((forall t, In t (tasks st) -> id_matches (task_id t) taskId = false) /\
   st' = st) \/
  (exists t,
     In t (tasks st') /\ task_slot t = slot /\
     id_matches (task_id t) taskId = true /\
     requests (db st') = requests (db st) ++ [DbPut t]).
Proof.
  intros st'.
  destruct (find (fun t => id_matches (task_id t) taskId) (tasks st))
    as [T|] eqn:E.
  - right. exists (set_slot T slot).
    apply find_some in E as HT. destruct HT as [Hin Hm].
    split; [|split; [reflexivity|split; [exact Hm|]]].
    + apply in_map_iff. exists T. split; [now apply relocate_hit | exact Hin].
    + unfold st', updateTaskSlot. simpl.
      rewrite (find_map_commute (fun t => id_matches (task_id t) taskId))
        by (intros a; now rewrite relocate_id).
      rewrite E. simpl. now rewrite (relocate_hit _ _ _ Hm).
  - left.
    assert (Hmiss : forall t, In t (tasks st) ->
                      id_matches (task_id t) taskId = false)
      by (intros t Ht; exact (find_none _ _ E t Ht)).
    split; [exact Hmiss|].
    unfold st'. now rewrite updateTaskSlot_miss.
Qed.

Lemma requests_step (e : event) (st : AppState) :
  exists new,
    requests (db (snd (step e st))) = requests (db st) ++ new /\
    (List.length new <= 1)%nat /\
    (keygen (db st) <= keygen (db (snd (step e st))))%N.
Proof.
  destruct e as [allTasks|title date|v s|v b]; simpl.
  - exists []. rewrite app_nil_r. repeat split; [simpl; lia | lia].
  - eexists. repeat split; [simpl; lia | lia].
  - destruct (find _ _) as [t|]; simpl.
    + eexists. repeat split; [simpl; lia | lia].
    + exists []. rewrite app_nil_r. repeat split; [simpl; lia | lia].
  - exists []. rewrite app_nil_r. repeat split; [simpl; lia | lia].
Qed.

(** X14. The store only ever receives more requests: after any session the
    log of before is a prefix of the log, with at most one request more per
    event, and the key generator has not gone back. *)
Theorem requests_only_grow (es : list event) (st : AppState) :
  exists new,
    requests (db (run es st)) = requests (db st) ++ new /\
    (List.length new <= List.length es)%nat /\
    (keygen (db st) <= keygen (db (run es st)))%N.
Proof.
  revert st. induction es as [|e es IH]; intros st; simpl.
  - exists []. rewrite app_nil_r. repeat split; [simpl; lia | lia].
  - destruct (requests_step e st) as [n1 [H1 [L1 G1]]].
    destruct (IH (snd (step e st))) as [n2 [H2 [L2 G2]]].
    exists (n1 ++ n2). rewrite H2, H1, app_assoc, length_app.
    repeat split; lia.
Qed.

(** ** The pill track and the tasks do not meet *)

Lemma pills_run_indep (es : list event) (st1 st2 : AppState) :
  pills st1 = pills st2 -> pills (run es st1) = pills (run es st2).
Proof.
  revert st1 st2. induction es as [|e es IH]; intros st1 st2 H; [exact H|].
  simpl. apply IH. destruct e; simpl; congruence.
Qed.

Lemma tasks_run_indep (es : list event) (st1 st2 : AppState) :
  tasks st1 = tasks st2 -> db st1 = db st2 ->
  tasks (run es st1) = tasks (run es st2) /\
  db (run es st1) = db (run es st2).
Proof.
  revert st1 st2. induction es as [|e es IH]; intros st1 st2 Ht Hd;
    [now split|].
  simpl. apply IH; destruct e; simpl; rewrite ?Ht, ?Hd; reflexivity.
Qed.

(** X17. The pill track and the task store do not meet: after any session
    the pill tokens are what the pill drops alone would have left, and the
    tasks and the store are what the session without its pill drops would
    have left. *)
Theorem pills_and_tasks_do_not_meet (es : list event) (st : AppState) :
  pills (run es st) = pills (run (filter is_pill es) st) /\
  tasks (run es st) = tasks (run (filter (fun e => negb (is_pill e)) es) st) /\
  db (run es st) = db (run (filter (fun e => negb (is_pill e)) es) st).
Proof.
  revert st. induction es as [|e es IH]; intros st; [now repeat split|].
  destruct (IH (snd (step e st))) as [Hp [Ht Hd]].
  destruct e as [allTasks|title date|v s|v b]; simpl filter; cbn [run].
  - rewrite Hp, Ht, Hd. split; [|split; reflexivity].
    now apply pills_run_indep.
  - rewrite Hp, Ht, Hd. split; [|split; reflexivity].
    now apply pills_run_indep.
  - rewrite Hp, Ht, Hd. split; [|split; reflexivity].
    now apply pills_run_indep.
  - rewrite Hp, Ht, Hd. split; [reflexivity|].
    now apply tasks_run_indep.
Qed.
